(** * Object-detection example: losses and mini-batch loader

    A shallow embedding of [example/object-detection/block/loss.py] and
    [example/object-detection/dataset/dataloader.py].

    Conventions.
    - Python exceptions are values of [exn]; a call that may raise returns
      a [result].
    - Floating-point tensors are read over the real numbers [R]: the
      formulas are the ones written in the source, their rounding is not
      modelled.  A tensor is seen through its positions (a [list]), the
      elementwise operators act position by position.
    - Operators of the tensor library that the source only calls are
      section variables, or are modelled from the written description
      where a statement is about them. *)

From Stdlib Require Import List ZArith String Bool Arith Lia.
From Stdlib Require Import Reals Lra.
Import ListNotations.

Set Implicit Arguments.
Set Warnings "-register-all".


(* ================================================================= *)
(** ** Python values, exceptions and results *)

Module Py.

(** The exceptions the two files can raise. *)
Inductive exn : Type :=
| ValueError (msg : string)
| IndexError
| NameError (name : string)
| AttributeError (name : string)
| LibraryError.   (* raised inside the tensor library or the interpreter *)

Inductive result (T : Type) : Type :=
| Ok (x : T)
| Raise (e : exn).
Arguments Ok {T} x.
Arguments Raise {T} e.

Definition bind {T U : Type} (r : result T) (k : T -> result U) : result U :=
  match r with
  | Ok x => k x
  | Raise e => Raise e
  end.

(** The values a keyword argument such as [num_class] can be bound to. *)
Inductive value : Type :=
| PyNone
| PyBool (b : bool)
| PyInt (n : Z)
| PyFloat (mantissa : Z) (exponent : Z)
| PyStr (s : string).

(** [isinstance(v, int)]: [bool] is a subclass of [int]. *)
Definition isinstance_int (v : value) : bool :=
  match v with
  | PyBool _ | PyInt _ => true
  | _ => false
  end.

(** The integer an [int] instance stands for ([True] is 1). *)
Definition int_value (v : value) : Z :=
  match v with
  | PyBool true => 1
  | PyInt n => n
  | _ => 0
  end.

(** Truth value of an optional string: [None] and [''] are false. *)
Definition truthy_str (s : option string) : bool :=
  match s with
  | None => false
  | Some EmptyString => false
  | Some _ => true
  end.

End Py.

Export Py.

Declare Scope py_scope.
Notation "x <- r ;; k" := (Py.bind r (fun x => k))
  (at level 61, r at next level, right associativity) : py_scope.
Open Scope py_scope.
Open Scope string_scope.
Open Scope list_scope.

(* ================================================================= *)
(** ** dataset/dataloader.py *)

Module Sampler.

(** Index samplers of [mxnet.gluon.data.sampler]. *)
Inductive t : Type :=
| SequentialSampler (len : nat)
| RandomSampler (len : nat)
| Given (indices : list nat).      (* a sampler passed by the caller *)

(** Modelled from the spec: the batch-grouping sampler, which the
    source only constructs.  It wraps an index sampler, a batch size and
    a last-batch policy, and keeps the rolled-over indices. *)
Record BatchSampler : Type := mkBatchSampler {
  _sampler : t;
  _batch_size : Z;
  _last_batch : string;
  _prev : list nat
}.

Section Iteration.

(** The permutation drawn by the random sampler on a restart. *)
Variable shuffle : list nat -> list nat.

Definition indices (s : t) : list nat :=
  match s with
  | SequentialSampler n => seq 0 n
  | RandomSampler n => shuffle (seq 0 n)
  | Given l => l
  end.

(** Buffer indices into groups of [size]; returns the full groups and
    the indices left in the buffer. *)
Fixpoint group (size : Z) (batch : list nat) (idxs : list nat)
  : list (list nat) * list nat :=
  match idxs with
  | [] => ([], batch)
  | i :: rest =>
      let batch' := batch ++ [i] in
      if (Z.of_nat (List.length batch') =? size)%Z
      then let '(out, buffered) := group size [] rest in (batch' :: out, buffered)
      else group size batch' rest
  end.

(** Modelled from the spec: one pass over the batch-grouping sampler.
    On a short final group, [keep] emits it as it is, [discard] drops
    it, [rollover] carries it into the next pass.  The answer is the
    groups produced and the sampler after the pass. *)
Definition iter (bs : BatchSampler) : result (list (list nat) * BatchSampler) :=
  let '(out, buffered) :=
    group (_batch_size bs) (_prev bs) (indices (_sampler bs)) in
  let after p := mkBatchSampler (_sampler bs) (_batch_size bs) (_last_batch bs) p in
  match buffered with
  | [] => Ok (out, after [])
  | _ :: _ =>
      if String.eqb (_last_batch bs) "keep" then Ok (out ++ [buffered], after [])
      else if String.eqb (_last_batch bs) "discard" then Ok (out, after [])
      else if String.eqb (_last_batch bs) "rollover" then Ok (out, after buffered)
      else Raise (ValueError "last_batch must be one of 'keep', 'discard', or 'rollover'")
  end.

End Iteration.

End Sampler.


Module Batchify.

Section Collate.

(** The element type of the arrays ([dtype]) and the value [-1] in it. *)
Variable A : Type.
Variable minus_one : A.

(** A tensor of the framework ([nd.NDArray]): a shape and the elements
    in row-major order. *)
Record NDArray : Type := mkNDArray {
  shape : list nat;
  elems : list A
}.

(** A two-dimensional [numpy] array, as the label sets are: [rows] has
    [shape[0]] entries, each of [shape[-1] = width] elements. *)
Record ndarray : Type := mkndarray {
  rows : list (list A);
  width : nat
}.

Definition well_shaped (w : nat) (l : ndarray) : Prop :=
  width l = w /\ Forall (fun r => List.length r = w) (rows l).

(** What a dataset record can be: a tensor of the framework, a tuple of
    records, a two-dimensional array of labels, or a plain number (what
    indexing a one-dimensional array gives). *)
Inductive item : Type :=
| Tensor (a : NDArray)
| Tuple (fields : list item)
| Labels (l : ndarray)
| Number (x : A).

(** What [_batchify] returns: a tensor, or the list of the collated
    fields. *)
Inductive batch : Type :=
| Batch (a : NDArray)
| Fields (items : list batch).

(** [len] of a result. *)
Definition len (b : batch) : nat :=
  match b with
  | Batch a => hd 0 (shape a)
  | Fields items => List.length items
  end.

(** The members of a group seen as tensors, tuples, arrays or numbers.
    A group is meant to hold records of one layout; on a group that mixes
    the kinds the model answers [LibraryError], which stands for whatever
    the libraries do with it. *)
Fixpoint as_tensors (data : list item) : result (list NDArray) :=
  match data with
  | [] => Ok []
  | Tensor a :: rest => xs <- as_tensors rest ;; Ok (a :: xs)
  | _ :: _ => Raise LibraryError
  end.

Fixpoint as_tuples (data : list item) : result (list (list item)) :=
  match data with
  | [] => Ok []
  | Tuple fs :: rest => xs <- as_tuples rest ;; Ok (fs :: xs)
  | _ :: _ => Raise LibraryError
  end.

Fixpoint as_arrays (data : list item) : result (list ndarray) :=
  match data with
  | [] => Ok []
  | Labels l :: rest => xs <- as_arrays rest ;; Ok (l :: xs)
  | _ :: _ => Raise LibraryError
  end.

Fixpoint as_numbers (data : list item) : result (list A) :=
  match data with
  | [] => Ok []
  | Number x :: rest => xs <- as_numbers rest ;; Ok (x :: xs)
  | _ :: _ => Raise LibraryError
  end.

(** Modelled from the spec: [nd.stack], which stacks tensors of
    matching shape along a new leading axis. *)
Definition stack (xs : list NDArray) : result NDArray :=
  match xs with
  | [] => Raise LibraryError
  | x :: _ =>
      if forallb (fun y => if list_eq_dec Nat.eq_dec (shape y) (shape x)
                           then true else false) xs
      then Ok (mkNDArray (List.length xs :: shape x) (List.concat (map elems xs)))
      else Raise LibraryError
  end.

(** [zip] applied to the unpacked records: their columns, cut at the
    shortest record. *)
Fixpoint zip_star (data : list (list item)) : list (list item) :=
  match data with
  | [] => []
  | [r] => map (fun x => [x]) r
  | r :: rest => map (fun xc => fst xc :: snd xc) (combine r (zip_star rest))
  end.

(** [np.full((batch_size, pad, w), -1)]. *)
Definition full (batch_size pad w : nat) : list (list (list A)) :=
  repeat (repeat (repeat minus_one w) pad) batch_size.

(** [buf[i][:l.shape[0], :] = l]: the first rows of entry [i] are
    overwritten by [l]; a one-column [l] is broadcast over the row,
    any other width mismatch is refused. *)
Definition assign_rows (w : nat) (entry : list (list A)) (l : ndarray)
  : result (list (list A)) :=
  if Nat.eqb (width l) w then
    Ok (rows l ++ skipn (List.length (rows l)) entry)
  else if Nat.eqb (width l) 1 then
    Ok (map (fun r => repeat (hd minus_one r) w) (rows l)
          ++ skipn (List.length (rows l)) entry)
  else Raise (ValueError "could not broadcast input array").

Fixpoint set_nth {T : Type} (i : nat) (x : T) (l : list T) : list T :=
  match l, i with
  | [], _ => []
  | _ :: t, 0 => x :: t
  | h :: t, S j => h :: set_nth j x t
  end.

(** [for i, l in enumerate(data): buf[i][:l.shape[0], :] = l]. *)
Fixpoint fill (w : nat) (i : nat) (data : list ndarray)
    (buf : list (list (list A))) : result (list (list (list A))) :=
  match data with
  | [] => Ok buf
  | l :: rest =>
      entry <- assign_rows w (nth i buf []) l ;;
      fill w (S i) rest (set_nth i entry buf)
  end.

(** [np.asarray(data)] on label arrays.  Records that all have one
    number of rows must also have one width, or the conversion is
    refused; in every other case the sequence of the records is kept (as
    one array when the shapes agree, as an array of objects when the
    numbers of rows differ), so that the loops run over the records
    themselves. *)
Definition asarray (data : list ndarray) : result (list ndarray) :=
  match data with
  | [] => Ok []
  | first :: _ =>
      if forallb (fun l => Nat.eqb (List.length (rows l)) (List.length (rows first)))
           data
         && negb (forallb (fun l => Nat.eqb (width l) (width first)) data)
      then Raise (ValueError "could not broadcast input array")
      else Ok data
  end.

(** The padding branch up to the final conversion: the buffer [buf]. *)
Definition pad_labels (data : list ndarray) : result (list (list (list A))) :=
  data <- asarray data ;;
  match data with
  | [] => Raise IndexError
  | first :: _ =>
      let batch_size := List.length data in
      let pad := list_max (map (fun l => List.length (rows l)) data) in
      fill (width first) 0 data (full batch_size pad (width first))
  end.

(** One record after the padding: its rows, then rows of [-1] up to
    [pad] rows. *)
Definition padded (w pad : nat) (l : ndarray) : list (list A) :=
  rows l ++ repeat (repeat minus_one w) (pad - List.length (rows l)).

(** [nd.array(buf)] for a buffer of shape [(n, pad, w)]. *)
Definition nd_array (n pad w : nat) (buf : list (list (list A))) : NDArray :=
  mkNDArray [n; pad; w] (List.concat (List.concat buf)).

(** The list comprehension [[_batchify(i) for i in data]]: the calls
    run in order, the first one that raises ends it.  [None] is a call
    that ran out of fuel. *)
Fixpoint collect (rs : list (option (result batch)))
  : option (result (list batch)) :=
  match rs with
  | [] => Some (Ok [])
  | None :: _ => None
  | Some (Raise e) :: _ => Some (Raise e)
  | Some (Ok b) :: rest =>
      match collect rest with
      | None => None
      | Some (Raise e) => Some (Raise e)
      | Some (Ok bs) => Some (Ok (b :: bs))
      end
  end.

(** [_batchify], with the depth of the recursion bounded by [fuel]. *)
Fixpoint batchify_fuel (fuel : nat) (data : list item)
  : option (result batch) :=
  match fuel with
  | 0 => None
  | S fuel' =>
      match data with
      | [] => Some (Raise IndexError)
      | Tensor _ :: _ =>
          Some (xs <- as_tensors data ;; a <- stack xs ;; Ok (Batch a))
      | Tuple _ :: _ =>
          match as_tuples data with
          | Raise e => Some (Raise e)
          | Ok records =>
              match collect (map (batchify_fuel fuel') (zip_star records)) with
              | None => None
              | Some (Raise e) => Some (Raise e)
              | Some (Ok items) => Some (Ok (Fields items))
              end
          end
      | Labels first :: _ =>
          Some (ls <- as_arrays data ;;
                buf <- pad_labels ls ;;
                Ok (Batch (nd_array (List.length ls)
                             (list_max (map (fun l => List.length (rows l)) ls))
                             (width first) buf)))
      | Number _ :: _ =>
          (* the records have no axis: [l.shape[0]] raises on the first one *)
          Some (_ <- as_numbers data ;; Raise IndexError)
      end
  end.

(** Nesting depth of a record, and of a group. *)
Fixpoint depth (v : item) : nat :=
  match v with
  | Tuple fs => S (list_max (map depth fs))
  | _ => 0
  end.

Definition group_depth (data : list item) : nat := list_max (map depth data).

(** [_batchify]: the recursion goes as deep as the records nest, so
    fuel above the depth of the group is enough (see
    [batchify_fuel_enough]) and the last branch is never taken. *)
Definition _batchify (data : list item) : result batch :=
  match batchify_fuel (S (group_depth data)) data with
  | Some r => r
  | None => Raise LibraryError
  end.

End Collate.

Arguments Tensor {A} a.
Arguments Tuple {A} fields.
Arguments Labels {A} l.
Arguments Number {A} x.
Arguments Batch {A} a.
Arguments Fields {A} items.

End Batchify.

Module DataLoader.

Import Sampler Batchify.

Section Loader.

Variable A : Type.
Variable minus_one : A.

Record t : Type := mkDataLoader {
  _dataset : list (item A);
  _batch_sampler : BatchSampler
}.

(** [DataLoader.__init__]. *)
Definition __init__ (dataset : list (item A)) (batch_size : option Z)
    (shuffle : bool) (sampler : option Sampler.t)
    (last_batch : option string) (batch_sampler : option BatchSampler)
  : result t :=
  match batch_sampler with
  | None =>
      match batch_size with
      | None =>
          Raise (ValueError
            "batch_size must be specified unless batch_sampler is specified")
      | Some size =>
          sampler' <-
            match sampler with
            | None =>
                if shuffle then Ok (RandomSampler (List.length dataset))
                else Ok (SequentialSampler (List.length dataset))
            | Some s =>
                if shuffle then
                  Raise (ValueError
                    "shuffle must not be specified if sampler is specified")
                else Ok s
            end ;;
          Ok (mkDataLoader dataset
                (mkBatchSampler sampler' size
                   (match last_batch with
                    | Some policy =>
                        if truthy_str last_batch then policy else "keep"
                    | None => "keep"
                    end) []))
      end
  | Some bs =>
      if match batch_size with Some _ => true | None => false end
         || shuffle
         || match sampler with Some _ => true | None => false end
         || match last_batch with Some _ => true | None => false end
      then
        Raise (ValueError
          "batch_size, shuffle, sampler and last_batch must not be specified if batch_sampler is specified.")
      else Ok (mkDataLoader dataset bs)
  end.

(** [self._dataset[idx]]. *)
Definition getitem (dataset : list (item A)) (idx : nat) : result (item A) :=
  match nth_error dataset idx with
  | Some r => Ok r
  | None => Raise IndexError
  end.

Fixpoint mapM {T U : Type} (f : T -> result U) (l : list T) : result (list U) :=
  match l with
  | [] => Ok []
  | x :: rest => y <- f x ;; ys <- mapM f rest ;; Ok (y :: ys)
  end.

(** [DataLoader.__iter__], run to the end of one pass: the batches it
    yields and the loader after the pass ([shuffle] is the permutation
    the random sampler draws). *)
Definition __iter__ (shuffle : list nat -> list nat) (dl : t)
  : result (list (batch A) * t) :=
  pass <- Sampler.iter shuffle (_batch_sampler dl) ;;
  out <- mapM (fun group =>
                 records <- mapM (getitem (_dataset dl)) group ;;
                 _batchify minus_one records) (fst pass) ;;
  Ok (out, mkDataLoader (_dataset dl) (snd pass)).

End Loader.

Definition given {T : Type} (x : option T) : bool :=
  match x with Some _ => true | None => false end.

(** The inconsistent argument lists, as the documentation of the class
    words them: a batch sampler together with any of the other four, no
    batch sampler and no batch size, or both shuffling and a sampler. *)
Definition inconsistent (batch_size : option Z) (shuffle : bool)
    (sampler : option Sampler.t) (last_batch : option string)
    (batch_sampler : option BatchSampler) : bool :=
  (given batch_sampler
     && (given batch_size || shuffle || given sampler || given last_batch))
  || (negb (given batch_sampler) && negb (given batch_size))
  || (shuffle && given sampler).

End DataLoader.

(* ================================================================= *)
(** ** block/loss.py *)

Module Loss.

Open Scope R_scope.

(** *** The operators the losses call

    A tensor is laid out batch axis first: a [list] of samples, each
    sample a [list] of positions, each position a number or, where a
    class axis matters, the [list] of its class scores.  Shapes that do
    not agree are the library's errors and are not modelled: positions
    are paired in order, which makes [_reshape_like] the identity.  The
    elementwise operators [relu], [sigmoid], [exp], [log], [minimum] and
    [where] are the usual functions on numbers. *)

Definition relu (x : R) : R := Rmax x 0.

Definition sigmoid (x : R) : R := 1 / (1 + exp (- x)).

Definition sum (l : list R) : R := fold_right Rplus 0 l.

(** Modelled from the spec: [F.mean(loss, axis=batch_axis, exclude=True)],
    which reduces all axes but the batch axis by their mean: every sample
    is averaged over its positions. *)
Definition mean (l : list R) : R := sum l / INR (List.length l).

Fixpoint map2 {T U V : Type} (f : T -> U -> V) (a : list T) (b : list U) : list V :=
  match a, b with
  | x :: a', y :: b' => f x y :: map2 f a' b'
  | _, _ => []
  end.

(** [F.where(condition, x, y)] at one position. *)
Definition where_ (condition : bool) (x y : R) : R :=
  if condition then x else y.

(** Modelled from the spec: the helper [_apply_weighting], imported from
    the framework, which applies the optional elementwise weighting: the
    loss is multiplied by the sample weights when they are given and by
    the global weight when it is given. *)
Definition _apply_weighting (loss : list (list R)) (weight : option R)
    (sample_weight : option (list (list R))) : list (list R) :=
  let loss :=
    match sample_weight with
    | Some sw => map2 (map2 Rmult) loss sw
    | None => loss
    end in
  match weight with
  | Some w => map (map (fun x => x * w)) loss
  | None => loss
  end.

(** The default [eps] and epsilon floor, [1e-12]. *)
Definition eps12 : R := / 10 ^ 12.

(** The label tensor of the classification losses: class indices (one
    per position) or a value per class. *)
Inductive label_tensor : Type :=
| Indices (l : list (list Z))
| PerClass (l : list (list (list R))).

(** *** SmoothL1Loss *)

(** Modelled from the spec: the operator [F.smooth_l1], which the source
    only calls.  It is quadratic near zero and linear (with the slope of
    the L1 loss) for large residuals, and the two pieces meet at residual
    [1/sigma]; the constants are the ones that make the pieces agree
    there in value and in slope. *)
Definition smooth_l1 (sigma : R) (x : R) : R :=
  if Rlt_dec (Rabs x) (1 / sigma)
  then sigma * x * x / 2
  else Rabs x - 1 / (2 * sigma).

(** The same penalty without the case distinction: with
    [m = min(|x|, 1/sigma)] it is [sigma/2 * m^2 + (|x| - m)]
    (see [smooth_l1_closed]). *)
Definition smooth_l1_closed_form (sigma : R) (x : R) : R :=
  let a := Rabs x in
  let m := (a + 1 / sigma - Rabs (a - 1 / sigma)) / 2 in
  sigma / 2 * (m * m) + (a - m).

(** The quadratic branch alone, and its derivative. *)
Definition quadratic_branch (sigma : R) (x : R) : R := sigma * x * x / 2.
Definition quadratic_slope (sigma : R) (x : R) : R := sigma * x.

Module SmoothL1Loss.

Record t : Type := mk {
  _sigma : R;
  _weight : option R;
  _batch_axis : Z
}.

Definition __init__ (sigma : R) (weight : option R) (batch_axis : Z) : t :=
  mk sigma weight batch_axis.

(** The elementwise penalty, [F.smooth_l1(pred - label, scalar=sigma)]. *)
Definition penalty (self : t) (pred label : R) : R :=
  smooth_l1 (_sigma self) (pred - label).

Definition hybrid_forward (self : t) (pred label : list (list R))
    (sample_weight : option (list (list R))) : list R :=
  let loss := map2 (map2 (penalty self)) pred label in
  let loss := _apply_weighting loss (_weight self) sample_weight in
  map mean loss.

End SmoothL1Loss.

(** *** SigmoidBinaryCrossEntropyLoss *)

Module SigmoidBinaryCrossEntropyLoss.

Record t : Type := mk {
  _from_sigmoid : bool;
  _weight : option R;
  _batch_axis : Z
}.

Definition __init__ (from_sigmoid : bool) (weight : option R) (batch_axis : Z) : t :=
  mk from_sigmoid weight batch_axis.

(** The branch taken on raw logits. *)
Definition from_logits (pred label : R) : R :=
  let max_val := relu (- pred) in
  pred - pred * label + max_val
    + ln (exp (- max_val) + exp (- pred - max_val)).

(** The branch taken on probabilities. *)
Definition from_sigmoid (pred label : R) : R :=
  - (ln (pred + eps12) * label + ln (1 - pred + eps12) * (1 - label)).

Definition elementwise (self : t) (pred label : R) : R :=
  if negb (_from_sigmoid self) then from_logits pred label
  else from_sigmoid pred label.

Definition hybrid_forward (self : t) (pred label : list (list R))
    (sample_weight : option (list (list R))) : list R :=
  let loss := map2 (map2 (elementwise self)) pred label in
  let loss := _apply_weighting loss (_weight self) sample_weight in
  map mean loss.

End SigmoidBinaryCrossEntropyLoss.

(** *** SoftmaxCrossEntropyLoss *)

Module SoftmaxCrossEntropyLoss.

Record t : Type := mk {
  _axis : Z;
  _sparse_label : bool;
  _from_logits : bool;
  _weight : option R;
  _batch_axis : Z;
  _ignore_label : Z
}.

Definition __init__ (axis : Z) (sparse_label from_logits : bool)
    (weight : option R) (batch_axis : Z) (ignore_label : Z) : t :=
  mk axis sparse_label from_logits weight batch_axis ignore_label.

(** The object built when no argument is given. *)
Definition default : t := __init__ (-1) true false None 0 (-1).

Section Operators.

(** [F.log_softmax] and [F.pick] along the class axis of one
    position. *)
Variable log_softmax : list R -> list R.
Variable pick : list R -> Z -> R.

(** The loss at one position with an index label, before the
    weighting. *)
Definition sparse_position (self : t) (scores : list R) (label : Z) : R :=
  let pred := if negb (_from_logits self) then log_softmax scores else scores in
  let loss := - pick pred label in
  where_ (Z.eqb label (_ignore_label self)) 0 loss.

(** The loss at one position with a value per class. *)
Definition dense_position (self : t) (scores : list R) (label : list R) : R :=
  let pred := if negb (_from_logits self) then log_softmax scores else scores in
  - sum (map2 Rmult pred label).

(** The tensor [loss] before [_apply_weighting]; a label tensor of
    the other kind than [sparse_label] announces does not fit the
    prediction, which the library refuses. *)
Definition unweighted (self : t) (pred : list (list (list R)))
    (label : label_tensor) : result (list (list R)) :=
  if _sparse_label self then
    match label with
    | Indices l => Ok (map2 (map2 (sparse_position self)) pred l)
    | PerClass _ => Raise LibraryError
    end
  else
    match label with
    | PerClass l => Ok (map2 (map2 (dense_position self)) pred l)
    | Indices _ => Raise LibraryError
    end.

Definition hybrid_forward (self : t) (pred : list (list (list R)))
    (label : label_tensor) (sample_weight : option (list (list R)))
  : result (list R) :=
  loss <- unweighted self pred label ;;
  Ok (map mean (_apply_weighting loss (_weight self) sample_weight)).

End Operators.

End SoftmaxCrossEntropyLoss.

(** *** FocalLoss *)

Module FocalLoss.

Record t : Type := mk {
  _axis : Z;
  _alpha : R;
  _gamma : nat;
  _sparse_label : bool;
  _num_class : Py.value;
  _from_logits : bool;
  _eps : R;
  _weight : option R;
  _batch_axis : Z
}.

(** [FocalLoss.__init__]; [gamma] ranges over the natural exponents
    (the default is 2). *)
Definition __init__ (axis : Z) (alpha : R) (gamma : nat) (sparse_label : bool)
    (from_logits : bool) (batch_axis : Z) (weight : option R)
    (num_class : Py.value) (eps : R) : result t :=
  if sparse_label
     && (negb (isinstance_int num_class) || (int_value num_class <? 1)%Z)
  then Raise (ValueError
         "Number of class > 0 must be provided if sparse label is used.")
  else Ok (mk axis alpha gamma sparse_label num_class from_logits eps
             weight batch_axis).

(** A class count that is an integer at least 1. *)
Definition positive_int (v : Py.value) : bool :=
  match v with
  | PyInt n => (1 <=? n)%Z
  | PyBool b => b
  | _ => false
  end.

(** The alpha-weighted cross-entropy at one element, for the score
    [p] there: [alpha] and [p] at the true class, [1 - alpha] and
    [1 - p] elsewhere. *)
Definition weighted_cross_entropy (alpha eps : R) (one_hot : bool) (p : R) : R :=
  let alpha_t := if one_hot then alpha else 1 - alpha in
  let p_t := if one_hot then p else 1 - p in
  - alpha_t * ln (Rmin (p_t + eps) 1).

(** [F.one_hot(label, num_class)] at one position. *)
Definition one_hot (label : Z) (num_class : Z) : list bool :=
  map (fun c => Z.eqb label (Z.of_nat c)) (seq 0 (Z.to_nat num_class)).

(** The loss at one element: [one_hot] tells whether the element is at
    the true class, [output] is the score there. *)
Definition elementwise (self : t) (one_hot : bool) (output : R) : R :=
  let output := if negb (_from_logits self) then sigmoid output else output in
  let pt := where_ one_hot output (1 - output) in
  let alpha := where_ one_hot (_alpha self * 1) ((1 - _alpha self) * 1) in
  - alpha * ((1 - pt) ^ _gamma self) * ln (Rmin (pt + _eps self) 1).

(** [label > 0] at one element. *)
Definition positive (x : R) : bool := if Rlt_dec 0 x then true else false.

Definition unweighted (self : t) (output : list (list (list R)))
    (label : label_tensor) : result (list (list R)) :=
  if _sparse_label self then
    match label with
    | Indices l =>
        Ok (map2 (fun sample labels =>
                    List.concat
                      (map2 (fun scores y =>
                               map2 (elementwise self)
                                 (one_hot y (int_value (_num_class self))) scores)
                         sample labels))
              output l)
    | PerClass _ => Raise LibraryError
    end
  else
    match label with
    | PerClass l =>
        Ok (map2 (fun sample labels =>
                    List.concat
                      (map2 (fun scores ys =>
                               map2 (elementwise self) (map positive ys) scores)
                         sample labels))
              output l)
    | Indices _ => Raise LibraryError
    end.

Definition hybrid_forward (self : t) (output : list (list (list R)))
    (label : label_tensor) (sample_weight : option (list (list R)))
  : result (list R) :=
  loss <- unweighted self output label ;;
  Ok (map mean (_apply_weighting loss (_weight self) sample_weight)).

End FocalLoss.

End Loss.

(* ================================================================= *)
(** ** Loading block/loss.py

    What the interpreter does with the top level of the file: every
    statement runs in the module's namespace, the names bound so far.  An
    import binds the names it lists, a [def] binds its name without
    running its body, a [class] statement evaluates its base classes and
    then binds its name, an assignment evaluates its right-hand side and
    binds its target. *)

Module LossModule.

Definition namespace : Type := list string.

(** The names every module can read without binding them. *)
Definition builtins : list string :=
  [
   "ArithmeticError"; "AssertionError"; "AttributeError";
   "BaseException"; "BaseExceptionGroup"; "BlockingIOError";
   "BrokenPipeError"; "BufferError"; "BytesWarning";
   "ChildProcessError"; "ConnectionAbortedError"; "ConnectionError";
   "ConnectionRefusedError"; "ConnectionResetError";
   "DeprecationWarning"; "EOFError"; "Ellipsis"; "EncodingWarning";
   "EnvironmentError"; "Exception"; "ExceptionGroup"; "False";
   "FileExistsError"; "FileNotFoundError"; "FloatingPointError";
   "FutureWarning"; "GeneratorExit"; "IOError"; "ImportError";
   "ImportWarning"; "IndentationError"; "IndexError";
   "InterruptedError"; "IsADirectoryError"; "KeyError";
   "KeyboardInterrupt"; "LookupError"; "MemoryError";
   "ModuleNotFoundError"; "NameError"; "None"; "NotADirectoryError";
   "NotImplemented"; "NotImplementedError"; "OSError"; "OverflowError";
   "PendingDeprecationWarning"; "PermissionError"; "ProcessLookupError";
   "RecursionError"; "ReferenceError"; "ResourceWarning";
   "RuntimeError"; "RuntimeWarning"; "StopAsyncIteration";
   "StopIteration"; "SyntaxError"; "SyntaxWarning"; "SystemError";
   "SystemExit"; "TabError"; "TimeoutError"; "True"; "TypeError";
   "UnboundLocalError"; "UnicodeDecodeError"; "UnicodeEncodeError";
   "UnicodeError"; "UnicodeTranslateError"; "UnicodeWarning";
   "UserWarning"; "ValueError"; "Warning"; "ZeroDivisionError"; "abs";
   "aiter"; "all"; "anext"; "any"; "ascii"; "bin"; "bool"; "breakpoint";
   "bytearray"; "bytes"; "callable"; "chr"; "classmethod"; "compile";
   "complex"; "copyright"; "credits"; "delattr"; "dict"; "dir";
   "divmod"; "enumerate"; "eval"; "exec"; "exit"; "filter"; "float";
   "format"; "frozenset"; "getattr"; "globals"; "hasattr"; "hash";
   "help"; "hex"; "id"; "input"; "int"; "isinstance"; "issubclass";
   "iter"; "len"; "license"; "list"; "locals"; "map"; "max";
   "memoryview"; "min"; "next"; "object"; "oct"; "open"; "ord"; "pow";
   "print"; "property"; "quit"; "range"; "repr"; "reversed"; "round";
   "set"; "setattr"; "slice"; "sorted"; "staticmethod"; "str"; "sum";
   "super"; "tuple"; "type"; "vars"; "zip"
  ].

Definition bound (ns : namespace) (name : string) : bool :=
  existsb (String.eqb name) ns || existsb (String.eqb name) builtins.

(** The expressions of the top level: a name, or an attribute of an
    expression.  The imported modules are taken to have the attributes
    the file reads from them. *)
Inductive expr : Type :=
| Name (id : string)
| Attribute (e : expr) (attr : string).

Fixpoint eval (ns : namespace) (e : expr) : result unit :=
  match e with
  | Name id => if bound ns id then Ok tt else Raise (NameError id)
  | Attribute e' _ => eval ns e'
  end.

Fixpoint eval_all (ns : namespace) (es : list expr) : result unit :=
  match es with
  | [] => Ok tt
  | e :: rest => _ <- eval ns e ;; eval_all ns rest
  end.

(** A statement takes the namespace to the next one, or raises. *)
Definition statement : Type := namespace -> result namespace.

Definition import_from (module : string) (names : list string) : statement :=
  fun ns => Ok (names ++ ns).

Definition import_as (module alias : string) : statement :=
  fun ns => Ok (alias :: ns).

Definition def_ (name : string) : statement :=
  fun ns => Ok (name :: ns).

Definition class_ (name : string) (bases : list expr) : statement :=
  fun ns => _ <- eval_all ns bases ;; Ok (name :: ns).

Definition assign (target : string) (value : expr) : statement :=
  fun ns => _ <- eval ns value ;; Ok (target :: ns).

Fixpoint run (body : list statement) (ns : namespace) : result namespace :=
  match body with
  | [] => Ok ns
  | s :: rest => ns' <- s ns ;; run rest ns'
  end.

(** The statements of loss.py before its first class, in order. *)
Definition preamble : list statement :=
  [ import_from "mxnet.gluon" ["loss"];
    import_from "mxnet.gluon.loss" ["_reshape_like"; "_apply_weighting"];
    import_as "numpy" "np";
    def_ "find_inf" ].

Definition class_SmoothL1Loss : statement :=
  class_ "SmoothL1Loss" [Attribute (Name "loss") "Loss"].

Definition class_SigmoidBinaryCrossEntropyLoss : statement :=
  class_ "SigmoidBinaryCrossEntropyLoss" [Name "Loss"].

Definition class_SoftmaxCrossEntropyLoss : statement :=
  class_ "SoftmaxCrossEntropyLoss" [Name "Loss"].

Definition class_FocalLoss : statement :=
  class_ "FocalLoss" [Attribute (Name "loss") "Loss"].

(** The top level of loss.py. *)
Definition loss_py : list statement :=
  preamble ++
  [ class_SmoothL1Loss;
    class_SigmoidBinaryCrossEntropyLoss;
    assign "SigmoidBCELoss" (Name "SigmoidBinaryCrossEntropyLoss");
    class_SoftmaxCrossEntropyLoss;
    class_FocalLoss ].

(** Importing the module runs its top level in an empty namespace. *)
Definition load : result namespace := run loss_py [].

(** Reading a name of the module from another file: the module is
    loaded first, and the name must be bound in it. *)
Definition getattr (name : string) : result unit :=
  ns <- load ;;
  if existsb (String.eqb name) ns then Ok tt else Raise (AttributeError name).

End LossModule.

(* ================================================================= *)
(** ** Views used to state further properties *)

Module Views.

Import Batchify.

Section Arrays.

Variable A : Type.

(** A label array seen as a tensor of the same shape, with its elements
    in row-major order. *)
Definition to_tensor (l : ndarray A) : NDArray A :=
  mkNDArray [List.length (rows l); width l] (List.concat (rows l)).

(** A label array with one more row at its end. *)
Definition append_row (l : ndarray A) (r : list A) : ndarray A :=
  mkndarray (rows l ++ [r]) (width l).

(** A record that is a plain number, and a record that holds no plain
    number at any depth. *)
Definition is_number (v : item A) : bool :=
  match v with
  | Number _ => true
  | _ => false
  end.

Fixpoint number_free (v : item A) : bool :=
  match v with
  | Number _ => false
  | Tuple fields => forallb number_free fields
  | _ => true
  end.

(** The length of the shortest of the records [first :: others]. *)
Definition shortest (first : list (item A)) (others : list (list (item A))) : nat :=
  fold_right Nat.min (List.length first) (map (@List.length (item A)) others).

End Arrays.

(** A mask entry as the number 0 or 1. *)
Definition indicator (b : bool) : R := if b then 1%R else 0%R.

(** The row of 0 and 1 that encodes the class [y] among [n] classes. *)
Definition one_hot_row (y : Z) (n : nat) : list R :=
  map indicator (Loss.FocalLoss.one_hot y (Z.of_nat n)).

(** The focal loss with the same parameters, [gamma] and [sparse_label]
    apart. *)
Definition with_gamma (self : Loss.FocalLoss.t) (gamma : nat) : Loss.FocalLoss.t :=
  Loss.FocalLoss.mk (Loss.FocalLoss._axis self) (Loss.FocalLoss._alpha self)
    gamma (Loss.FocalLoss._sparse_label self) (Loss.FocalLoss._num_class self)
    (Loss.FocalLoss._from_logits self) (Loss.FocalLoss._eps self)
    (Loss.FocalLoss._weight self) (Loss.FocalLoss._batch_axis self).

Definition with_sparse_label (self : Loss.FocalLoss.t) (sparse_label : bool)
  : Loss.FocalLoss.t :=
  Loss.FocalLoss.mk (Loss.FocalLoss._axis self) (Loss.FocalLoss._alpha self)
    (Loss.FocalLoss._gamma self) sparse_label (Loss.FocalLoss._num_class self)
    (Loss.FocalLoss._from_logits self) (Loss.FocalLoss._eps self)
    (Loss.FocalLoss._weight self) (Loss.FocalLoss._batch_axis self).

(** The number of groups of at most [size] indices that hold [n]
    indices when only the last group may be short. *)
Definition groups_of (n size : nat) : nat :=
  n / size + (if Nat.eqb (n mod size) 0 then 0 else 1).

End Views.

(* ================================================================= *)
(** ** The argument check of the loader *)

Module DataLoaderFacts.

Import Sampler Batchify DataLoader.

(** C2.  [DataLoader.__init__] raises a [ValueError] exactly on the
    inconsistent argument lists, and returns a loader on all the others;
    the answer is that of the constructor itself, so nothing is left to
    the first iteration. *)
Theorem init_raises_exactly_when_inconsistent :
  forall (A : Type) (dataset : list (item A)) batch_size shuffle sampler
         last_batch batch_sampler,
    match __init__ dataset batch_size shuffle sampler last_batch batch_sampler with
    | Ok dl =>
        inconsistent batch_size shuffle sampler last_batch batch_sampler = false
        /\ _dataset dl = dataset
    | Raise (ValueError _) =>
        inconsistent batch_size shuffle sampler last_batch batch_sampler = true
    | Raise _ => False
    end.
Proof.
  intros A dataset batch_size shuffle sampler last_batch batch_sampler.
  unfold __init__, inconsistent, given.
  destruct batch_sampler as [bs|], batch_size as [size|], shuffle,
    sampler as [s|], last_batch as [p|]; cbn; auto.
Qed.

(** All the indices handed to [group] come out again, in order: in the
    full groups first, then in the buffer. *)
Lemma group_keeps_all :
  forall size idxs batch,
    List.concat (fst (group size batch idxs)) ++ snd (group size batch idxs)
    = batch ++ idxs.
Proof.
  intros size idxs; induction idxs as [|i rest IH]; intros batch; cbn.
  - now rewrite app_nil_r.
  - destruct (Z.of_nat (List.length (batch ++ [i])) =? size)%Z.
    + specialize (IH []). destruct (group size [] rest) as [out buffered].
      cbn in *. rewrite <- !app_assoc. cbn. now rewrite IH.
    + rewrite IH. now rewrite <- app_assoc.
Qed.

(** With a positive size, the full groups have exactly that size and
    the buffer stays shorter. *)
Lemma group_sizes :
  forall size idxs batch,
    (Z.of_nat (List.length batch) < size)%Z ->
    Forall (fun g => Z.of_nat (List.length g) = size) (fst (group size batch idxs))
    /\ (Z.of_nat (List.length (snd (group size batch idxs))) < size)%Z.
Proof.
  intros size idxs; induction idxs as [|i rest IH]; intros batch Hlt; cbn.
  - split; [constructor | assumption].
  - destruct (Z.of_nat (List.length (batch ++ [i])) =? size)%Z eqn:E.
    + assert (H0 : (Z.of_nat (List.length (@nil nat)) < size)%Z) by (cbn; lia).
      specialize (IH [] H0). destruct (group size [] rest) as [out buffered].
      cbn in *. destruct IH as [IH1 IH2]. split; [|assumption].
      constructor; [|assumption]. now apply Z.eqb_eq in E.
    + apply IH. apply Z.eqb_neq in E.
      rewrite length_app in *. cbn in *. lia.
Qed.

(** Ten indices in groups of three: [discard] drops the last index,
    [rollover] keeps it for the next pass. *)
Lemma ten_by_three_discard :
  Sampler.iter (fun l => l) (mkBatchSampler (SequentialSampler 10) 3 "discard" [])
  = Ok ([[0; 1; 2]; [3; 4; 5]; [6; 7; 8]]%nat,
        mkBatchSampler (SequentialSampler 10) 3 "discard" []).
Proof. reflexivity. Qed.

Lemma ten_by_three_rollover :
  Sampler.iter (fun l => l) (mkBatchSampler (SequentialSampler 10) 3 "rollover" [])
  = Ok ([[0; 1; 2]; [3; 4; 5]; [6; 7; 8]]%nat,
        mkBatchSampler (SequentialSampler 10) 3 "rollover" [9%nat]).
Proof. reflexivity. Qed.

(** C10.  A loader built without a batch sampler and without a
    last-batch policy groups its indices under the policy [keep]: a pass
    over its batch sampler succeeds and produces the full groups followed
    by the short final group, when there is one; together they hold every
    index drawn by the sampler, in order, and nothing is carried over to
    the next pass.  So a short final group is emitted, neither dropped
    nor rolled over. *)
Theorem default_last_batch_is_keep :
  forall (A : Type) (dataset : list (item A)) size shuffle sampler dl,
    __init__ dataset (Some size) shuffle sampler None None = Ok dl ->
    _last_batch (_batch_sampler dl) = "keep"
    /\ forall rng, exists full short after,
         Sampler.iter rng (_batch_sampler dl)
         = Ok (full ++ match short with [] => [] | _ :: _ => [short] end, after)
         /\ List.concat full ++ short
            = indices rng (_sampler (_batch_sampler dl))
         /\ ((0 < size)%Z ->
             Forall (fun g => Z.of_nat (List.length g) = size) full
             /\ (Z.of_nat (List.length short) < size)%Z)
         /\ _prev after = [].
Proof.
  intros A dataset size shuffle sampler dl H.
  assert (Hbs : exists s, _batch_sampler dl = mkBatchSampler s size "keep" []).
  { unfold __init__ in H.
    destruct sampler as [s|], shuffle; cbn in H; try discriminate;
      injection H as <-; eexists; reflexivity. }
  destruct Hbs as [s Hbs]. rewrite Hbs. cbn. split; [reflexivity|].
  intros rng. unfold Sampler.iter. cbn.
  pose proof (group_keeps_all size (indices rng s) []) as Hall.
  pose proof (@group_sizes size (indices rng s) []) as Hsizes.
  destruct (group size [] (indices rng s)) as [out buffered].
  cbn in Hall, Hsizes.
  exists out, buffered, (mkBatchSampler s size "keep" []).
  split; [|split; [exact Hall|split; [exact Hsizes|reflexivity]]].
  destruct buffered as [|b rest]; [now rewrite app_nil_r|reflexivity].
Qed.

(** Ten records in groups of three, no policy given: three full groups
    and the last record on its own. *)
Lemma default_last_batch_is_keep_witness :
  exists dl,
    __init__ (repeat (Tuple (A:=Z) []) 10) (Some 3%Z) false None None None = Ok dl
    /\ _last_batch (_batch_sampler dl) = "keep"
    /\ Sampler.iter (fun l => l) (_batch_sampler dl)
       = Ok ([[0; 1; 2]; [3; 4; 5]; [6; 7; 8]; [9]]%nat, _batch_sampler dl).
Proof.
  eexists. split; [reflexivity|].
  split.
  - exact (proj1 (@default_last_batch_is_keep Z (repeat (Tuple []) 10) 3%Z
                    false None _ eq_refl)).
  - reflexivity.
Defined.

End DataLoaderFacts.

(* ================================================================= *)
(** ** Collation *)

Module BatchifyFacts.

Import Batchify.

Section Padding.

Variable A : Type.
Variable minus_one : A.

Lemma skipn_repeat (T : Type) (x : T) (k n : nat) :
  skipn k (repeat x n) = repeat x (n - k).
Proof.
  revert n; induction k as [|k IH]; intros [|n]; cbn; auto.
Qed.

Lemma nth_after (T : Type) (done rest : list T) (x d : T) :
  nth (List.length done) (done ++ x :: rest) d = x.
Proof. induction done; cbn; auto. Qed.

Lemma set_nth_after (T : Type) (done rest : list T) (x y : T) :
  set_nth (List.length done) y (done ++ x :: rest) = done ++ y :: rest.
Proof. induction done; cbn; congruence. Qed.

Lemma assign_rows_same_width (w pad : nat) (l : ndarray A) :
  width l = w ->
  assign_rows minus_one w (repeat (repeat minus_one w) pad) l
  = Ok (padded minus_one w pad l).
Proof.
  intros Hw. unfold assign_rows, padded.
  rewrite Hw, Nat.eqb_refl, skipn_repeat. reflexivity.
Qed.

(** The loop over the records, started on a buffer whose first
    entries are done and whose others are still blank. *)
Lemma fill_pads (w pad : nat) :
  forall (data : list (ndarray A)) (done : list (list (list A))),
    Forall (fun l => width l = w) data ->
    fill minus_one w (List.length done) data
      (done ++ repeat (repeat (repeat minus_one w) pad) (List.length data))
    = Ok (done ++ map (padded minus_one w pad) data).
Proof.
  induction data as [|l rest IH]; intros done Hw; cbn.
  - reflexivity.
  - inversion Hw as [|? ? Hl Hrest]; subst.
    rewrite nth_after, assign_rows_same_width by auto. cbn.
    rewrite set_nth_after.
    specialize (IH (done ++ [padded minus_one (width l) pad l]) Hrest).
    rewrite length_app, Nat.add_1_r, <- !app_assoc in IH. exact IH.
Qed.

Lemma as_arrays_labels (data : list (ndarray A)) :
  as_arrays (map Labels data) = Ok data.
Proof. induction data as [|l rest IH]; cbn; [|rewrite IH]; reflexivity. Qed.

Lemma padded_length (w pad : nat) (l : ndarray A) :
  List.length (rows l) <= pad ->
  List.length (padded minus_one w pad l) = pad.
Proof.
  intros H. unfold padded. rewrite length_app, repeat_length. lia.
Qed.

Lemma list_max_bounds (f : ndarray A -> nat) (data : list (ndarray A)) :
  Forall (fun l => f l <= list_max (map f data)) data.
Proof.
  assert (H : list_max (map f data) <= list_max (map f data)) by lia.
  apply list_max_le in H. now apply Forall_map in H.
Qed.

(** Records of one width pass [np.asarray]. *)
Lemma asarray_one_width (w : nat) (data : list (ndarray A)) :
  Forall (fun l => width l = w) data -> asarray data = Ok data.
Proof.
  intros Hw. destruct data as [|first others]; [reflexivity|].
  unfold asarray.
  replace (forallb (fun l => Nat.eqb (width l) (width first)) (first :: others))
    with true; [now rewrite andb_false_r|].
  symmetry. apply forallb_forall. intros l Hl. apply Nat.eqb_eq.
  rewrite Forall_forall in Hw. rewrite (Hw l Hl). symmetry. apply Hw. now left.
Qed.

Lemma batchify_fuel_labels (w fuel : nat) (first : ndarray A)
    (others : list (ndarray A)) :
  Forall (fun l => width l = w) (first :: others) ->
  batchify_fuel minus_one (S fuel) (map Labels (first :: others))
  = Some (Ok (Batch
      (nd_array (List.length (first :: others))
         (list_max (map (fun l => List.length (rows l)) (first :: others))) w
         (map (padded minus_one w
                 (list_max (map (fun l => List.length (rows l))
                              (first :: others))))
            (first :: others))))).
Proof.
  intros Hw.
  assert (Hfirst : width first = w) by (now inversion Hw).
  cbn [map batchify_fuel].
  change (Labels first :: map Labels others) with (map Labels (first :: others)).
  rewrite as_arrays_labels. cbn [bind]. unfold pad_labels, full.
  rewrite (asarray_one_width Hw). cbn [bind].
  rewrite Hfirst.
  pose proof (@fill_pads w
                (list_max (map (fun l => List.length (rows l)) (first :: others)))
                (first :: others) [] Hw) as Hfill.
  cbn [app] in Hfill. change (List.length (@nil (list (list A)))) with 0 in Hfill.
  rewrite Hfill. reflexivity.
Qed.

(** The number of elements of a buffer whose entries all have [pad]
    rows of [w] elements. *)
Lemma flat_length (w pad : nat) (buf : list (list (list A))) :
  Forall (fun entry =>
            List.length entry = pad
            /\ Forall (fun r => List.length r = w) entry) buf ->
  List.length (List.concat (List.concat buf)) = List.length buf * pad * w.
Proof.
  assert (Hrows : forall entry : list (list A),
             Forall (fun r => List.length r = w) entry ->
             List.length (List.concat entry) = List.length entry * w).
  { induction 1 as [|r entry Hr _ IH]; cbn; [reflexivity|].
    rewrite length_app, IH, Hr. reflexivity. }
  induction 1 as [|entry buf [Hpad Hw] _ IH]; cbn; [reflexivity|].
  rewrite concat_app, length_app, IH, (Hrows entry Hw), Hpad. lia.
Qed.

(** C7.  A group of plain label arrays of one width [w], with
    [l_1 .. l_n] rows, is collated into one array of shape
    [(n, max l_i, w)].  The array returned holds, in row-major order, the
    elements of a buffer with an entry per record: entry [i] is the rows
    of record [i], unchanged, followed by rows of [-1] up to [max l_i]
    rows, every row having [w] elements. *)
Theorem batchify_pads_labels :
  forall (w : nat) (first : ndarray A) (others : list (ndarray A)),
    let data := first :: others in
    let n := List.length data in
    let pad := list_max (map (fun l => List.length (rows l)) data) in
    Forall (well_shaped w) data ->
    exists a buf,
      _batchify minus_one (map Labels data) = Ok (Batch a)
      /\ shape a = [n; pad; w]
      /\ elems a = List.concat (List.concat buf)
      /\ List.length (elems a) = n * pad * w
      /\ List.length buf = n
      /\ Forall (fun entry =>
                   List.length entry = pad
                   /\ Forall (fun r => List.length r = w) entry) buf
      /\ forall i l, nth_error data i = Some l ->
           exists entry,
             nth_error buf i = Some entry
             /\ entry = rows l
                        ++ repeat (repeat minus_one w) (pad - List.length (rows l))
             /\ firstn (List.length (rows l)) entry = rows l
             /\ forall j, List.length (rows l) <= j < pad ->
                  nth_error entry j = Some (repeat minus_one w).
Proof.
  intros w first others data n pad Hwf.
  assert (Hw : Forall (fun l => width l = w) data).
  { eapply Forall_impl; [|exact Hwf]. now intros l [H _]. }
  assert (Hle : Forall (fun l => List.length (rows l) <= pad) data)
    by apply list_max_bounds.
  assert (Hshape : Forall (fun entry =>
                     List.length entry = pad
                     /\ Forall (fun r => List.length r = w) entry)
                     (map (padded minus_one w pad) data)).
  { apply Forall_map. rewrite Forall_forall in *. intros l Hin. split.
    - apply padded_length. now apply Hle.
    - unfold padded. apply Forall_app. split.
      + now apply Hwf.
      + apply Forall_forall. intros r Hr. apply repeat_spec in Hr.
        subst r. apply repeat_length. }
  exists (nd_array n pad w (map (padded minus_one w pad) data)),
    (map (padded minus_one w pad) data).
  split; [|split; [reflexivity|split; [reflexivity|split;
    [|split; [apply length_map|split; [exact Hshape|]]]]]].
  - unfold _batchify. subst data n pad.
    rewrite (batchify_fuel_labels _ Hw). reflexivity.
  - cbn [nd_array elems].
    rewrite (flat_length Hshape). unfold n. now rewrite length_map.
  - intros i l Hi. exists (padded minus_one w pad l).
    split; [|split; [reflexivity|split]].
    + now apply map_nth_error.
    + unfold padded. rewrite firstn_app, Nat.sub_diag, firstn_all. cbn.
      apply app_nil_r.
    + intros j Hj. unfold padded. rewrite nth_error_app2 by lia.
      apply nth_error_repeat. lia.
Qed.

End Padding.

Section Recursion.

Variable A : Type.
Variable minus_one : A.

Lemma le_list_max (l : list nat) (x : nat) : In x l -> x <= list_max l.
Proof.
  intros Hin. assert (H : list_max l <= list_max l) by lia.
  apply list_max_le in H. rewrite Forall_forall in H. now apply H.
Qed.

Lemma as_tuples_inv (data : list (item A)) (records : list (list (item A))) :
  as_tuples data = Ok records -> data = map Tuple records.
Proof.
  revert records; induction data as [|[a|fs|l|x] rest IH]; intros records H;
    cbn in H; try discriminate.
  - now injection H as <-.
  - destruct (as_tuples rest) as [xs|e]; cbn in H; [|discriminate].
    injection H as <-. cbn. now rewrite (IH xs).
Qed.

Lemma as_tuples_tuples (records : list (list (item A))) :
  as_tuples (map Tuple records) = Ok records.
Proof. induction records as [|r rest IH]; cbn; [|rewrite IH]; reflexivity. Qed.

(** Every member of a column is a field of one of the records. *)
Lemma zip_star_In (records : list (list (item A))) :
  forall col x, In col (zip_star records) -> In x col ->
    exists r, In r records /\ In x r.
Proof.
  induction records as [|r rest IH]; intros col x Hcol Hx.
  - contradiction.
  - destruct rest as [|r' rest'].
    + cbn in Hcol. apply in_map_iff in Hcol. destruct Hcol as [y [<- Hy]].
      destruct Hx as [<-|[]]. exists r. cbn. auto.
    + change (zip_star (r :: r' :: rest'))
        with (map (fun xc => fst xc :: snd xc)
                (combine r (zip_star (r' :: rest')))) in Hcol.
      apply in_map_iff in Hcol. destruct Hcol as [[y c] [<- Hyc]].
      cbn in Hx. destruct Hx as [<-|Hx].
      * exists r. split; [now left|]. eapply in_combine_l; eassumption.
      * apply in_combine_r in Hyc.
        destruct (IH c x Hyc Hx) as [r0 [Hr0 Hx0]].
        exists r0. split; [now right|assumption].
Qed.

(** The columns nest less deeply than the records they come from. *)
Lemma column_depth (records : list (list (item A))) (col : list (item A)) :
  In col (zip_star records) ->
  S (group_depth col) <= group_depth (map Tuple records).
Proof.
  intros Hcol. destruct col as [|x0 col0].
  - destruct records as [|r rest]; [contradiction|].
    apply Nat.le_trans with (m := depth (Tuple r)).
    + cbn. lia.
    + apply le_list_max. now left.
  - assert (Hall : Forall (fun k => S k <= group_depth (map Tuple records))
                     (map (@depth A) (x0 :: col0))).
    { apply Forall_map, Forall_forall. intros x Hx.
      destruct (zip_star_In _ _ _ Hcol Hx) as [r [Hr Hxr]].
      apply Nat.le_trans with (m := depth (Tuple r)).
      - cbn. apply le_n_S, le_list_max, in_map, Hxr.
      - apply le_list_max. unfold group_depth.
        rewrite map_map. apply in_map_iff. exists r. auto. }
    unfold group_depth at 1. apply Nat.le_succ_l.
    apply list_max_lt; [discriminate|].
    eapply Forall_impl; [|exact Hall]. cbn. intros k Hk. lia.
Qed.

Lemma collect_mono (g1 g2 : list (item A) -> option (result (batch A)))
    (cols : list (list (item A))) :
  (forall c, In c cols -> forall r, g1 c = Some r -> g2 c = Some r) ->
  forall x, collect (map g1 cols) = Some x -> collect (map g2 cols) = Some x.
Proof.
  induction cols as [|c rest IH]; intros Hg x H; cbn in *; [assumption|].
  destruct (g1 c) as [[b|e]|] eqn:E1; [| |discriminate].
  - rewrite (Hg c (or_introl eq_refl) _ E1).
    destruct (collect (map g1 rest)) as [y|] eqn:E; [|discriminate].
    rewrite (IH (fun c' Hc' => Hg c' (or_intror Hc')) y eq_refl). exact H.
  - rewrite (Hg c (or_introl eq_refl) _ E1). exact H.
Qed.

Lemma collect_total (g : list (item A) -> option (result (batch A)))
    (cols : list (list (item A))) :
  (forall c, In c cols -> g c <> None) -> collect (map g cols) <> None.
Proof.
  induction cols as [|c rest IH]; intros Hg; cbn; [discriminate|].
  specialize (IH (fun c' Hc' => Hg c' (or_intror Hc'))).
  specialize (Hg c (or_introl eq_refl)).
  destruct (g c) as [[b|e]|]; [| discriminate | contradiction].
  destruct (collect (map g rest)) as [[bs|e]|]; [discriminate .. | contradiction].
Qed.

(** More fuel never changes an answer. *)
Lemma batchify_fuel_mono :
  forall fuel fuel' (data : list (item A)) r,
    fuel <= fuel' ->
    batchify_fuel minus_one fuel data = Some r ->
    batchify_fuel minus_one fuel' data = Some r.
Proof.
  induction fuel as [|f IH]; intros fuel' data r Hle H; [discriminate|].
  destruct fuel' as [|f']; [lia|].
  cbn in *. destruct data as [|[a|fs|l|x] rest]; try assumption.
  destruct (as_tuples (Tuple fs :: rest)) as [records|e]; [|assumption].
  destruct (collect (map (batchify_fuel minus_one f) (zip_star records)))
    as [x|] eqn:E; [|discriminate].
  rewrite (@collect_mono _ (batchify_fuel minus_one f') _
             (fun c _ r0 => IH f' c r0 ltac:(lia)) x E).
  exact H.
Qed.

(** Fuel above the depth of the group is enough. *)
Lemma batchify_fuel_enough :
  forall fuel (data : list (item A)),
    group_depth data < fuel -> batchify_fuel minus_one fuel data <> None.
Proof.
  induction fuel as [|f IH]; intros data Hd; [lia|].
  cbn. destruct data as [|[a|fs|l|x] rest]; try discriminate.
  destruct (as_tuples (Tuple fs :: rest)) as [records|e] eqn:E; [|discriminate].
  apply as_tuples_inv in E.
  assert (Hc : collect (map (batchify_fuel minus_one f) (zip_star records)) <> None).
  { apply collect_total. intros c Hin. apply IH.
    pose proof (column_depth _ _ Hin) as Hcol. rewrite <- E in Hcol. lia. }
  destruct (collect (map (batchify_fuel minus_one f) (zip_star records)))
    as [[items|e]|]; [discriminate .. | contradiction].
Qed.

(** With enough fuel, [batchify_fuel] is [_batchify]. *)
Lemma batchify_fuel_exact (fuel : nat) (data : list (item A)) :
  group_depth data < fuel ->
  batchify_fuel minus_one fuel data = Some (_batchify minus_one data).
Proof.
  intros Hd. unfold _batchify.
  destruct (batchify_fuel minus_one (S (group_depth data)) data) as [r|] eqn:E.
  - apply batchify_fuel_mono with (fuel := S (group_depth data)); [lia|exact E].
  - exfalso. revert E. apply batchify_fuel_enough. lia.
Qed.

(** The list comprehension succeeds exactly when every call does. *)
Lemma collect_ok (f : list (item A) -> result (batch A))
    (cols : list (list (item A))) (items : list (batch A)) :
  collect (map (fun c => Some (f c)) cols) = Some (Ok items)
  <-> Forall2 (fun c b => f c = Ok b) cols items.
Proof.
  revert items; induction cols as [|c rest IH]; intros items; cbn.
  - split.
    + intros H. injection H as <-. constructor.
    + intros H. inversion H. reflexivity.
  - destruct (f c) as [b|e] eqn:E.
    + destruct (collect (map (fun c0 => Some (f c0)) rest)) as [[bs|e]|] eqn:Er.
      * split.
        -- intros H. injection H as <-. constructor; [assumption|].
           now apply IH.
        -- intros H. inversion H as [|? b' ? bs' Hb Hrest]; subst.
           apply IH in Hrest. congruence.
      * split; [discriminate|].
        intros H. inversion H as [|? b' ? bs' Hb Hrest]; subst.
        apply IH in Hrest. discriminate.
      * split; [discriminate|].
        intros H. inversion H as [|? b' ? bs' Hb Hrest]; subst.
        apply IH in Hrest. discriminate.
    + split; [discriminate|].
      intros H. inversion H; subst. congruence.
Qed.

(** [_batchify] on a group of tuples: the result is the list of the
    collated columns. *)
Lemma batchify_tuples (first : list (item A)) (others : list (list (item A)))
    (b : batch A) :
  _batchify minus_one (map Tuple (first :: others)) = Ok b
  <-> exists items,
        b = Fields items
        /\ Forall2 (fun col item => _batchify minus_one col = Ok item)
             (zip_star (first :: others)) items.
Proof.
  set (records := first :: others).
  assert (Hcols : map (batchify_fuel minus_one (group_depth (map Tuple records)))
                    (zip_star records)
                  = map (fun c => Some (_batchify minus_one c)) (zip_star records)).
  { apply map_ext_in. intros c Hc. apply batchify_fuel_exact.
    apply column_depth in Hc. lia. }
  unfold _batchify at 1.
  change (batchify_fuel minus_one (S (group_depth (map Tuple records)))
            (map Tuple records))
    with (match as_tuples (map Tuple records) with
          | Raise e => Some (Raise e)
          | Ok rs =>
              match collect (map (batchify_fuel minus_one
                                    (group_depth (map Tuple records)))
                               (zip_star rs)) with
              | None => None
              | Some (Raise e) => Some (Raise e)
              | Some (Ok items) => Some (Ok (Fields items))
              end
          end).
  rewrite as_tuples_tuples, Hcols.
  destruct (collect (map (fun c => Some (_batchify minus_one c)) (zip_star records)))
    as [[items|e]|] eqn:E.
  - apply collect_ok in E. split.
    + intros H. injection H as <-. exists items. auto.
    + intros [items' [-> H]]. apply collect_ok in H.
      apply collect_ok in E. congruence.
  - split; [discriminate|]. intros [items' [-> H]].
    apply collect_ok in H. congruence.
  - split; [discriminate|]. intros [items' [-> H]].
    apply collect_ok in H. congruence.
Qed.

Lemma as_tensors_length (data : list (item A)) (xs : list (NDArray A)) :
  as_tensors data = Ok xs -> List.length xs = List.length data.
Proof.
  revert xs; induction data as [|[a|fs|l|x] rest IH]; intros xs H; cbn in H;
    try discriminate.
  - now injection H as <-.
  - destruct (as_tensors rest) as [ys|e]; cbn in H; [|discriminate].
    injection H as <-. cbn. now rewrite (IH ys).
Qed.

Lemma as_arrays_length (data : list (item A)) (ls : list (ndarray A)) :
  as_arrays data = Ok ls -> List.length ls = List.length data.
Proof.
  revert ls; induction data as [|[a|fs|l|x] rest IH]; intros ls H; cbn in H;
    try discriminate.
  - now injection H as <-.
  - destruct (as_arrays rest) as [ys|e]; cbn in H; [|discriminate].
    injection H as <-. cbn. now rewrite (IH ys).
Qed.

Lemma stack_length (xs : list (NDArray A)) (a : NDArray A) :
  stack xs = Ok a -> hd 0 (shape a) = List.length xs.
Proof.
  unfold stack. destruct xs as [|x rest]; [discriminate|].
  destruct (forallb _ _); [|discriminate]. now intros [= <-].
Qed.

Lemma as_tensors_tensors (xs : list (NDArray A)) :
  as_tensors (map Tensor xs) = Ok xs.
Proof. induction xs as [|x rest IH]; cbn; [|rewrite IH]; reflexivity. Qed.

(** Tensors of one shape are stacked along a new leading axis. *)
Lemma batchify_tensors (first : NDArray A) (others : list (NDArray A)) :
  Forall (fun a => shape a = shape first) others ->
  _batchify minus_one (map Tensor (first :: others))
  = Ok (Batch (mkNDArray (List.length (first :: others) :: shape first)
                 (List.concat (map (@elems A) (first :: others))))).
Proof.
  intros Hs. unfold _batchify. cbn [map batchify_fuel].
  change (Tensor first :: map Tensor others) with (map Tensor (first :: others)).
  rewrite as_tensors_tensors. cbn [bind]. unfold stack.
  replace (forallb _ (first :: others)) with true; [reflexivity|].
  symmetry. apply forallb_forall. intros y [<-|Hy].
  - now destruct (list_eq_dec Nat.eq_dec (shape first) (shape first)).
  - rewrite Forall_forall in Hs. rewrite (Hs y Hy).
    now destruct (list_eq_dec Nat.eq_dec (shape first) (shape first)).
Qed.

Lemma fold_min_swap (ks : list nat) (a b : nat) :
  Nat.min a (fold_right Nat.min b ks) = Nat.min b (fold_right Nat.min a ks).
Proof.
  induction ks as [|k ks IH]; cbn; lia.
Qed.

(** The number of columns is the length of the shortest record. *)
Lemma zip_star_length (first : list (item A)) (others : list (list (item A))) :
  List.length (zip_star (first :: others))
  = fold_right Nat.min (List.length first) (map (@List.length (item A)) others).
Proof.
  revert first; induction others as [|r rest IH]; intros first.
  - cbn. apply length_map.
  - change (zip_star (first :: r :: rest))
      with (map (fun xc => fst xc :: snd xc) (combine first (zip_star (r :: rest)))).
    rewrite length_map, length_combine, IH. cbn. apply fold_min_swap.
Qed.

(** Every column has one member per record. *)
Lemma zip_star_column_length (first : list (item A))
    (others : list (list (item A))) (col : list (item A)) :
  In col (zip_star (first :: others)) ->
  List.length col = S (List.length others).
Proof.
  revert first col; induction others as [|r rest IH]; intros first col Hcol.
  - cbn in Hcol. apply in_map_iff in Hcol. now destruct Hcol as [x [<- _]].
  - change (zip_star (first :: r :: rest))
      with (map (fun xc => fst xc :: snd xc)
              (combine first (zip_star (r :: rest)))) in Hcol.
    apply in_map_iff in Hcol. destruct Hcol as [[x c] [<- Hxc]].
    apply in_combine_r in Hxc. cbn. now rewrite (IH r c Hxc).
Qed.

Lemma Forall2_and_left (T U : Type) (P : T -> U -> Prop) (Q : T -> Prop)
    (l1 : list T) (l2 : list U) :
  Forall2 P l1 l2 -> Forall Q l1 -> Forall2 (fun a b => P a b /\ Q a) l1 l2.
Proof.
  induction 1 as [|a b l1' l2' Hab _ IH]; intros HQ; constructor;
    inversion HQ; subst; auto.
Qed.

(** C8, as the code has it.  On every group that [_batchify] collates,
    the length of the result is the size of the group when the first
    record is a tensor or a plain array; when the records are tuples
    the result is the list of the collated columns, one entry per
    field of the shortest record, so its length is the number of
    fields and not the size of the group.  Every column has as many
    members as the group has records, so a collated field whose column
    holds tensors or plain arrays has the length of the group. *)
Theorem batchify_length :
  forall (data : list (item A)) (b : batch A),
    _batchify minus_one data = Ok b ->
    match data with
    | [] => False
    | Tuple _ :: _ =>
        exists first others items,
          data = map Tuple (first :: others)
          /\ b = Fields items
          /\ Forall2 (fun col item =>
                        _batchify minus_one col = Ok item
                        /\ List.length col = List.length data)
               (zip_star (first :: others)) items
          /\ len b
             = fold_right Nat.min (List.length first)
                 (map (@List.length (item A)) others)
    | _ => len b = List.length data
    end.
Proof.
  intros data b H. destruct data as [|[a|fs|l|x] rest].
  - discriminate.
  - unfold _batchify in H. cbn [batchify_fuel] in H.
    destruct (as_tensors (Tensor a :: rest)) as [xs|e] eqn:E; [|discriminate].
    cbn [bind] in H. destruct (stack xs) as [t|e] eqn:Es; [|discriminate].
    injection H as <-. cbn [len].
    rewrite (stack_length _ Es). now apply as_tensors_length.
  - destruct (as_tuples (Tuple fs :: rest)) as [records|e] eqn:E.
    + apply as_tuples_inv in E.
      destruct records as [|first others]; [discriminate|].
      rewrite E in H. apply batchify_tuples in H.
      destruct H as [items [-> HF]].
      exists first, others, items. split; [exact E|]. split; [reflexivity|].
      split.
      * apply Forall2_and_left; [exact HF|].
        apply Forall_forall. intros col Hcol.
        rewrite (zip_star_column_length _ _ _ Hcol), E. cbn.
        now rewrite length_map.
      * cbn [len]. rewrite <- (Forall2_length HF). apply zip_star_length.
    + unfold _batchify in H. cbn [batchify_fuel] in H.
      rewrite E in H. discriminate.
  - unfold _batchify in H. cbn [batchify_fuel] in H.
    destruct (as_arrays (Labels l :: rest)) as [ls|e] eqn:E; [|discriminate].
    cbn [bind] in H. destruct (pad_labels minus_one ls) as [buf|e]; [|discriminate].
    injection H as <-. cbn [len nd_array shape hd].
    now apply as_arrays_length.
  - unfold _batchify in H. cbn [batchify_fuel] in H.
    destruct (as_numbers (Number x :: rest)); discriminate.
Qed.

End Recursion.

Open Scope Z_scope.

(** Three label arrays of two, five and three rows are padded to five
    rows each. *)
Lemma batchify_pads_labels_witness :
  exists a buf,
    _batchify (-1)
      (map Labels [mkndarray [[1; 1]; [2; 2]] 2;
                   mkndarray [[3; 3]; [4; 4]; [5; 5]; [6; 6]; [7; 7]] 2;
                   mkndarray [[8; 8]; [9; 9]; [0; 0]] 2])
    = Ok (Batch a)
    /\ shape a = [3; 5; 2]%nat
    /\ elems a = List.concat (List.concat buf)
    /\ List.length (elems a) = (3 * 5 * 2)%nat
    /\ List.length buf = 3%nat
    /\ Forall (fun entry =>
                 List.length entry = 5%nat
                 /\ Forall (fun r => List.length r = 2%nat) entry) buf
    /\ forall i l,
         nth_error [mkndarray [[1; 1]; [2; 2]] 2;
                    mkndarray [[3; 3]; [4; 4]; [5; 5]; [6; 6]; [7; 7]] 2;
                    mkndarray [[8; 8]; [9; 9]; [0; 0]] 2] i = Some l ->
         exists entry,
           nth_error buf i = Some entry
           /\ entry = rows l ++ repeat (repeat (-1) 2) (5 - List.length (rows l))
           /\ firstn (List.length (rows l)) entry = rows l
           /\ forall j, (List.length (rows l) <= j < 5)%nat ->
                nth_error entry j = Some (repeat (-1) 2).
Proof.
  apply (@batchify_pads_labels Z (-1) 2%nat
           (mkndarray [[1; 1]; [2; 2]] 2)
           [mkndarray [[3; 3]; [4; 4]; [5; 5]; [6; 6]; [7; 7]] 2;
            mkndarray [[8; 8]; [9; 9]; [0; 0]] 2]).
  repeat constructor.
Defined.

(** The same group, computed: the array returned, element by element. *)
Lemma batchify_two_five_three :
  _batchify (-1)
    (map Labels [mkndarray [[1; 1]; [2; 2]] 2;
                 mkndarray [[3; 3]; [4; 4]; [5; 5]; [6; 6]; [7; 7]] 2;
                 mkndarray [[8; 8]; [9; 9]; [0; 0]] 2])
  = Ok (Batch (mkNDArray [3; 5; 2]%nat
                 [1; 1; 2; 2; -1; -1; -1; -1; -1; -1;
                  3; 3; 4; 4; 5; 5; 6; 6; 7; 7;
                  8; 8; 9; 9; 0; 0; -1; -1; -1; -1])).
Proof. vm_compute. reflexivity. Qed.

(** Three records, each a pair of a tensor and a label array: the
    result lists two collated fields, while the group has three
    records. *)
Lemma batchify_length_counterexample :
  let data :=
    [Tuple [Tensor (mkNDArray [2%nat] [1; 2]); Labels (mkndarray [[7; 7]] 2)];
     Tuple [Tensor (mkNDArray [2%nat] [3; 4]); Labels (mkndarray [[8; 8]; [9; 9]] 2)];
     Tuple [Tensor (mkNDArray [2%nat] [5; 6]); Labels (mkndarray [] 2)]] in
  exists b,
    _batchify (-1) data = Ok b
    /\ len b = 2%nat
    /\ List.length data = 3%nat
    /\ len b <> List.length data.
Proof.
  eexists. split; [vm_compute; reflexivity|].
  split; [reflexivity|]. split; [reflexivity|discriminate].
Qed.

Lemma batchify_length_witness :
  exists first others items,
    [Tuple [Tensor (mkNDArray [2%nat] [1; 2]); Labels (mkndarray [[7; 7]] 2)];
     Tuple [Tensor (mkNDArray [2%nat] [3; 4]); Labels (mkndarray [[8; 8]; [9; 9]] 2)];
     Tuple [Tensor (mkNDArray [2%nat] [5; 6]); Labels (mkndarray [] 2)]]
    = map Tuple (first :: others)
    /\ Fields [Batch (mkNDArray [3; 2]%nat [1; 2; 3; 4; 5; 6]);
               Batch (mkNDArray [3; 2; 2]%nat [7; 7; -1; -1; 8; 8; 9; 9; -1; -1; -1; -1])]
       = Fields items
    /\ Forall2 (fun col item =>
                  _batchify (-1) col = Ok item
                  /\ List.length col = 3%nat)
         (zip_star (first :: others)) items
    /\ len (Fields [Batch (mkNDArray [3; 2]%nat [1; 2; 3; 4; 5; 6]);
                    Batch (mkNDArray [3; 2; 2]%nat
                             [7; 7; -1; -1; 8; 8; 9; 9; -1; -1; -1; -1])])
       = fold_right Nat.min (List.length first)
           (map (@List.length (item Z)) others).
Proof.
  apply (@batchify_length Z (-1)
           [Tuple [Tensor (mkNDArray [2%nat] [1; 2]); Labels (mkndarray [[7; 7]] 2)];
            Tuple [Tensor (mkNDArray [2%nat] [3; 4]);
                   Labels (mkndarray [[8; 8]; [9; 9]] 2)];
            Tuple [Tensor (mkNDArray [2%nat] [5; 6]); Labels (mkndarray [] 2)]]).
  vm_compute. reflexivity.
Defined.

End BatchifyFacts.

(* ================================================================= *)
(** ** The losses *)

Module LossFacts.

Import Loss.
Open Scope R_scope.

Lemma nth_error_map2 (T U V : Type) (f : T -> U -> V) :
  forall (a : list T) (b : list U) (i : nat),
    nth_error (map2 f a b) i
    = match nth_error a i, nth_error b i with
      | Some x, Some y => Some (f x y)
      | _, _ => None
      end.
Proof.
  induction a as [|x a IH]; intros [|y b] [|i]; cbn; auto.
  - now destruct (nth_error a i).
Qed.

(** C1.  With index labels, a position whose label is the ignore label
    has loss exactly 0 before the weighting and the mean, whatever the
    scores at that position are and whatever [log_softmax] and [pick]
    compute; the ignore label of the default object is -1. *)
Theorem ignored_label_contributes_zero :
  forall (log_softmax : list R -> list R) (pick : list R -> Z -> R)
         (self : SoftmaxCrossEntropyLoss.t)
         (pred : list (list (list R))) (label : list (list Z)),
    SoftmaxCrossEntropyLoss._sparse_label self = true ->
    exists loss,
      SoftmaxCrossEntropyLoss.unweighted log_softmax pick self pred (Indices label)
      = Ok loss
      /\ (forall i j sample scores labels,
            nth_error pred i = Some sample ->
            nth_error sample j = Some scores ->
            nth_error label i = Some labels ->
            nth_error labels j
            = Some (SoftmaxCrossEntropyLoss._ignore_label self) ->
            exists row,
              nth_error loss i = Some row /\ nth_error row j = Some 0)
      /\ SoftmaxCrossEntropyLoss._ignore_label SoftmaxCrossEntropyLoss.default
         = (-1)%Z.
Proof.
  intros log_softmax pick self pred label Hsparse.
  unfold SoftmaxCrossEntropyLoss.unweighted. rewrite Hsparse.
  eexists. split; [reflexivity|]. split; [|reflexivity].
  intros i j sample scores labels Hi Hj Hli Hlj.
  rewrite nth_error_map2, Hi, Hli. eexists. split; [reflexivity|].
  rewrite nth_error_map2, Hj, Hlj.
  unfold SoftmaxCrossEntropyLoss.sparse_position.
  now rewrite Z.eqb_refl.
Qed.

(** One sample of two positions with two classes each; the first
    position carries the ignore label. *)
Lemma ignored_label_contributes_zero_witness :
  exists loss,
    SoftmaxCrossEntropyLoss.unweighted (fun l => l) (fun l _ => hd 0 l)
      SoftmaxCrossEntropyLoss.default [[[1; 2]; [3; 4]]] (Indices [[(-1)%Z; 1%Z]])
    = Ok loss
    /\ (forall i j sample scores labels,
          nth_error [[[1; 2]; [3; 4]]] i = Some sample ->
          nth_error sample j = Some scores ->
          nth_error [[(-1)%Z; 1%Z]] i = Some labels ->
          nth_error labels j
          = Some (SoftmaxCrossEntropyLoss._ignore_label
                    SoftmaxCrossEntropyLoss.default) ->
          exists row,
            nth_error loss i = Some row /\ nth_error row j = Some 0)
    /\ SoftmaxCrossEntropyLoss._ignore_label SoftmaxCrossEntropyLoss.default
       = (-1)%Z.
Proof.
  apply (@ignored_label_contributes_zero (fun l => l) (fun l _ => hd 0 l)
           SoftmaxCrossEntropyLoss.default [[[1; 2]; [3; 4]]] [[(-1)%Z; 1%Z]]).
  reflexivity.
Defined.

(** C4.  [FocalLoss.__init__] raises a [ValueError] exactly when sparse
    labels are asked for and the class count is not an integer at
    least 1.  Without sparse labels it returns the object for every
    class count, [None] included, and the forward pass raises no
    [ValueError] of its own. *)
Theorem focal_init_checks_num_class :
  forall axis alpha gamma sparse_label from_logits batch_axis weight
         num_class eps,
    match FocalLoss.__init__ axis alpha gamma sparse_label from_logits
            batch_axis weight num_class eps with
    | Ok self =>
        (sparse_label = false \/ FocalLoss.positive_int num_class = true)
        /\ FocalLoss._num_class self = num_class
        /\ FocalLoss._sparse_label self = sparse_label
        /\ forall output label sample_weight,
             match FocalLoss.hybrid_forward self output label sample_weight with
             | Raise (ValueError _) => False
             | _ => True
             end
    | Raise (ValueError _) =>
        sparse_label = true /\ FocalLoss.positive_int num_class = false
    | Raise _ => False
    end.
Proof.
  intros axis alpha gamma sparse_label from_logits batch_axis weight
    num_class eps.
  unfold FocalLoss.__init__.
  assert (Hcheck : negb (isinstance_int num_class)
                   || (int_value num_class <? 1)%Z
                   = negb (FocalLoss.positive_int num_class)).
  { destruct num_class as [|[|]|n|m e|str]; cbn; try reflexivity.
    destruct (Z.ltb_spec n 1), (Z.leb_spec 1 n); cbn; auto; lia. }
  rewrite Hcheck.
  destruct sparse_label, (FocalLoss.positive_int num_class); cbn;
    repeat split; auto;
    intros output label sample_weight; unfold FocalLoss.hybrid_forward,
      FocalLoss.unweighted; cbn; destruct label; cbn; exact I.
Qed.

(** C9.  With [gamma = 0] the focal loss at one element is the
    alpha-weighted cross-entropy of the score there: the modulating
    factor [(1 - p_t) ^ gamma] is 1. *)
Theorem focal_gamma_zero_is_weighted_cross_entropy :
  forall (self : FocalLoss.t) (one_hot : bool) (output : R),
    FocalLoss._gamma self = 0%nat ->
    let p := if negb (FocalLoss._from_logits self) then sigmoid output
             else output in
    let p_t := if one_hot then p else 1 - p in
    (1 - p_t) ^ FocalLoss._gamma self = 1
    /\ FocalLoss.elementwise self one_hot output
       = FocalLoss.weighted_cross_entropy (FocalLoss._alpha self)
           (FocalLoss._eps self) one_hot p.
Proof.
  intros self one_hot output Hgamma p p_t. subst p p_t.
  unfold FocalLoss.elementwise, FocalLoss.weighted_cross_entropy, where_.
  rewrite Hgamma. split; [reflexivity|].
  destruct one_hot; cbn [pow]; ring.
Qed.

Lemma focal_gamma_zero_is_weighted_cross_entropy_witness :
  (1 - (if true then sigmoid 2 else 1 - sigmoid 2)) ^ 0 = 1
  /\ FocalLoss.elementwise
       (FocalLoss.mk (-1) (/ 4) 0 true (PyInt 3) false eps12 None 0) true 2
     = FocalLoss.weighted_cross_entropy (/ 4) eps12 true (sigmoid 2).
Proof.
  apply (@focal_gamma_zero_is_weighted_cross_entropy
           (FocalLoss.mk (-1) (/ 4) 0 true (PyInt 3) false eps12 None 0) true 2).
  reflexivity.
Defined.

Lemma ln_quotient (a b : R) : 0 < a -> 0 < b -> ln (a / b) = ln a - ln b.
Proof.
  intros Ha Hb. unfold Rdiv. rewrite ln_mult, ln_Rinv; auto using Rinv_0_lt_compat.
Qed.

Lemma from_logits_softplus (x y : R) :
  SigmoidBinaryCrossEntropyLoss.from_logits x y = x - x * y + ln (1 + exp (- x)).
Proof.
  unfold SigmoidBinaryCrossEntropyLoss.from_logits, relu.
  destruct (Rle_dec (- x) 0) as [Hneg|Hpos].
  - rewrite Rmax_right by assumption.
    replace (- x - 0) with (- x) by ring. rewrite Ropp_0, exp_0. ring.
  - rewrite Rmax_left by lra.
    replace (- x - - x) with 0 by ring. rewrite Ropp_involutive, exp_0.
    replace (1 + exp (- x)) with ((exp x + 1) / exp x).
    + rewrite ln_quotient, ln_exp.
      * ring.
      * pose proof (exp_pos x). lra.
      * apply exp_pos.
    + rewrite exp_Ropp. field. apply exp_neq_0.
Qed.

Lemma ln_shift (a e : R) :
  0 < a -> 0 <= e -> 0 <= ln (a + e) - ln a <= e / a.
Proof.
  intros Ha He. split.
  - destruct He as [He| <-].
    + pose proof (ln_increasing a (a + e) Ha ltac:(lra)). lra.
    + rewrite Rplus_0_r. lra.
  - rewrite <- ln_quotient by lra.
    replace ((a + e) / a) with (1 + e / a) by (field; lra).
    assert (Ht : 0 <= e / a).
    { apply Rmult_le_pos; [assumption|]. left. now apply Rinv_0_lt_compat. }
    destruct (exp_ineq1_le (e / a)) as [Hlt|Heq].
    + assert (H1 : 0 < 1 + e / a) by lra.
      pose proof (ln_increasing _ _ H1 Hlt) as H.
      rewrite ln_exp in H. lra.
    + rewrite Heq, ln_exp. lra.
Qed.

Lemma eps12_pos : 0 < eps12.
Proof. unfold eps12. apply Rinv_0_lt_compat, pow_lt. lra. Qed.

(** The two branches of the binary cross-entropy at one element. *)
Lemma bce_branches_agree :
  forall p y : R,
    0 < p < 1 -> 0 <= y <= 1 ->
    SigmoidBinaryCrossEntropyLoss.from_logits (ln (p / (1 - p))) y
    = - (y * ln p + (1 - y) * ln (1 - p))
    /\ 0 <= SigmoidBinaryCrossEntropyLoss.from_logits (ln (p / (1 - p))) y
            - SigmoidBinaryCrossEntropyLoss.from_sigmoid p y
         <= eps12 * (y / p + (1 - y) / (1 - p)).
Proof.
  intros p y [Hp0 Hp1] [Hy0 Hy1].
  assert (Hexact : SigmoidBinaryCrossEntropyLoss.from_logits (ln (p / (1 - p))) y
                   = - (y * ln p + (1 - y) * ln (1 - p))).
  { rewrite from_logits_softplus, exp_Ropp, exp_ln.
    - replace (1 + / (p / (1 - p))) with (/ p) by (field; lra).
      rewrite ln_Rinv, ln_quotient by lra. ring.
    - apply Rdiv_lt_0_compat; lra. }
  split; [exact Hexact|].
  rewrite Hexact. unfold SigmoidBinaryCrossEntropyLoss.from_sigmoid.
  pose proof eps12_pos as He.
  pose proof (@ln_shift p eps12 Hp0 ltac:(lra)) as [Hl1 Hu1].
  pose proof (@ln_shift (1 - p) eps12 ltac:(lra) ltac:(lra)) as [Hl2 Hu2].
  set (d1 := ln (p + eps12) - ln p) in *.
  set (d2 := ln (1 - p + eps12) - ln (1 - p)) in *.
  replace (- (y * ln p + (1 - y) * ln (1 - p))
           - - (ln (p + eps12) * y + ln (1 - p + eps12) * (1 - y)))
    with (y * d1 + (1 - y) * d2) by (unfold d1, d2; ring).
  replace (eps12 * (y / p + (1 - y) / (1 - p)))
    with (y * (eps12 / p) + (1 - y) * (eps12 / (1 - p))) by (field; lra).
  split.
  - apply Rplus_le_le_0_compat; apply Rmult_le_pos; lra.
  - apply Rplus_le_compat; apply Rmult_le_compat_l; lra.
Qed.

(** C5.  For a probability [p] strictly between 0 and 1 and a label [y]
    between 0 and 1, the loss built with [from_sigmoid = False], applied
    to the logit [ln (p / (1 - p))], is exactly
    [-(y ln p + (1 - y) ln (1 - p))], and it differs from the loss built
    with [from_sigmoid = True], applied to [p], only by the epsilon
    floor: the difference lies between 0 and
    [eps (y / p + (1 - y) / (1 - p))] with [eps = 1e-12]. *)
Theorem sigmoid_bce_forms_agree :
  forall (weight : option R) (batch_axis : Z) (p y : R),
    0 < p < 1 -> 0 <= y <= 1 ->
    let on_logits :=
      SigmoidBinaryCrossEntropyLoss.__init__ false weight batch_axis in
    let on_probabilities :=
      SigmoidBinaryCrossEntropyLoss.__init__ true weight batch_axis in
    SigmoidBinaryCrossEntropyLoss.elementwise on_logits (ln (p / (1 - p))) y
    = - (y * ln p + (1 - y) * ln (1 - p))
    /\ 0 <= SigmoidBinaryCrossEntropyLoss.elementwise on_logits
              (ln (p / (1 - p))) y
            - SigmoidBinaryCrossEntropyLoss.elementwise on_probabilities p y
         <= eps12 * (y / p + (1 - y) / (1 - p)).
Proof.
  intros weight batch_axis p y Hp Hy on_logits on_probabilities.
  subst on_logits on_probabilities.
  unfold SigmoidBinaryCrossEntropyLoss.elementwise,
    SigmoidBinaryCrossEntropyLoss.__init__.
  cbn [SigmoidBinaryCrossEntropyLoss._from_sigmoid negb].
  now apply bce_branches_agree.
Qed.

Lemma sigmoid_bce_forms_agree_witness :
  SigmoidBinaryCrossEntropyLoss.elementwise
    (SigmoidBinaryCrossEntropyLoss.__init__ false None 0) (ln (/ 2 / (1 - / 2))) 1
  = - (1 * ln (/ 2) + (1 - 1) * ln (1 - / 2))
  /\ 0 <= SigmoidBinaryCrossEntropyLoss.elementwise
            (SigmoidBinaryCrossEntropyLoss.__init__ false None 0)
            (ln (/ 2 / (1 - / 2))) 1
          - SigmoidBinaryCrossEntropyLoss.elementwise
              (SigmoidBinaryCrossEntropyLoss.__init__ true None 0) (/ 2) 1
       <= eps12 * (1 / / 2 + (1 - 1) / (1 - / 2)).
Proof.
  apply (@sigmoid_bce_forms_agree None 0%Z (/ 2) 1); lra.
Defined.

Lemma Rabs_square (x : R) : Rabs x * Rabs x = x * x.
Proof. unfold Rabs. destruct (Rcase_abs x); ring. Qed.

Lemma smooth_l1_closed (sigma x : R) : 0 < sigma -> smooth_l1 sigma x = smooth_l1_closed_form sigma x.
Proof.
  intros Hs. unfold smooth_l1, smooth_l1_closed_form.
  assert (Hc : sigma * (1 / sigma) = 1) by (field; lra).
  replace (1 / (2 * sigma)) with (1 / sigma / 2) by (field; lra).
  set (c := 1 / sigma) in *.
  destruct (Rlt_dec (Rabs x) c) as [Hlt|Hge].
  - rewrite (Rabs_left (Rabs x - c)) by lra.
    replace ((Rabs x + c - - (Rabs x - c)) / 2) with (Rabs x) by field.
    rewrite Rabs_square. field.
  - rewrite (Rabs_right (Rabs x - c)) by lra.
    replace ((Rabs x + c - (Rabs x - c)) / 2) with c by field.
    replace (sigma / 2 * (c * c)) with (sigma * c * c / 2) by field.
    rewrite Hc. lra.
Qed.

Lemma closed_form_continuous (sigma : R) : continuity (smooth_l1_closed_form sigma).
Proof.
  unfold smooth_l1_closed_form. reg.
Qed.

Lemma continuity_ext (f g : R -> R) :
  (forall x, f x = g x) -> continuity g -> continuity f.
Proof.
  intros Heq Hg x. specialize (Hg x).
  unfold continuity_pt, continue_in, limit1_in, limit_in in *.
  intros eps Heps. destruct (Hg eps Heps) as [alp [Halp H]].
  exists alp. split; [assumption|]. intros y Hy. rewrite !Heq. now apply H.
Qed.

Lemma smooth_l1_even (sigma x : R) : smooth_l1 sigma (- x) = smooth_l1 sigma x.
Proof.
  unfold smooth_l1. rewrite Rabs_Ropp.
  destruct (Rlt_dec (Rabs x) (1 / sigma)); [field_simplify; reflexivity | reflexivity].
Qed.

Lemma derivable_pt_lim_even (f : R -> R) (x l : R) :
  (forall y, f (- y) = f y) ->
  derivable_pt_lim f x l -> derivable_pt_lim f (- x) (- l).
Proof.
  intros Heven H eps Heps. destruct (H eps Heps) as [delta Hd].
  exists delta. intros h Hh Hlt.
  replace (f (- x + h)) with (f (x + - h))
    by (rewrite <- Heven; f_equal; ring).
  rewrite (Heven x).
  replace ((f (x + - h) - f x) / h - - l)
    with (- ((f (x + - h) - f x) / - h - l)) by (field; assumption).
  rewrite Rabs_Ropp. apply Hd; [now apply Ropp_neq_0_compat|].
  now rewrite Rabs_Ropp.
Qed.

Lemma half_slope_small (sigma h eps : R) :
  0 < sigma -> Rabs h < eps / sigma -> Rabs (sigma * h / 2) < eps.
Proof.
  intros Hs Hh.
  replace (sigma * h / 2) with (sigma / 2 * h) by field.
  rewrite Rabs_mult, (Rabs_right (sigma / 2)) by lra.
  assert (H : sigma * Rabs h < eps).
  { apply Rmult_lt_compat_l with (r := sigma) in Hh; [|assumption].
    replace (sigma * (eps / sigma)) with eps in Hh by (field; lra). exact Hh. }
  assert (H0 : 0 <= sigma * Rabs h)
    by (apply Rmult_le_pos; [lra | apply Rabs_pos]).
  lra.
Qed.

Lemma smooth_l1_slope_right (sigma : R) :
  0 < sigma -> derivable_pt_lim (smooth_l1 sigma) (1 / sigma) 1.
Proof.
  intros Hs eps Heps.
  assert (Hcpos : 0 < 1 / sigma) by (apply Rdiv_lt_0_compat; lra).
  assert (Hd : 0 < Rmin (1 / sigma) (eps / sigma)).
  { apply Rmin_pos; [assumption|]. apply Rdiv_lt_0_compat; lra. }
  exists (mkposreal _ Hd). intros h Hh Hlt. cbn in Hlt.
  assert (Hh1 : Rabs h < 1 / sigma)
    by (eapply Rlt_le_trans; [exact Hlt | apply Rmin_l]).
  assert (Hh2 : Rabs h < eps / sigma)
    by (eapply Rlt_le_trans; [exact Hlt | apply Rmin_r]).
  assert (Hfc : smooth_l1 sigma (1 / sigma) = 1 / sigma - 1 / (2 * sigma)).
  { unfold smooth_l1. rewrite (Rabs_right (1 / sigma)) by lra.
    destruct (Rlt_dec (1 / sigma) (1 / sigma)); [lra|reflexivity]. }
  rewrite Hfc. unfold smooth_l1.
  destruct (Rlt_dec 0 h) as [Hpos|Hneg].
  - rewrite (Rabs_right (1 / sigma + h)) by lra.
    destruct (Rlt_dec (1 / sigma + h) (1 / sigma)); [lra|].
    replace ((1 / sigma + h - 1 / (2 * sigma) - (1 / sigma - 1 / (2 * sigma))) / h - 1)
      with 0 by (field; lra).
    now rewrite Rabs_R0.
  - assert (Hh0 : h < 0) by lra.
    rewrite (Rabs_left h) in Hh1 by assumption.
    rewrite (Rabs_right (1 / sigma + h)) by lra.
    destruct (Rlt_dec (1 / sigma + h) (1 / sigma)); [|lra].
    replace ((sigma * (1 / sigma + h) * (1 / sigma + h) / 2
              - (1 / sigma - 1 / (2 * sigma))) / h - 1)
      with (sigma * h / 2) by (field; lra).
    now apply half_slope_small.
Qed.

Lemma quadratic_branch_slope (sigma r : R) :
  0 < sigma ->
  derivable_pt_lim (quadratic_branch sigma) r (quadratic_slope sigma r).
Proof.
  intros Hs eps Heps.
  assert (Hd : 0 < eps / sigma) by (apply Rdiv_lt_0_compat; lra).
  exists (mkposreal _ Hd). intros h Hh Hlt. cbn in Hlt.
  unfold quadratic_branch, quadratic_slope.
  replace ((sigma * (r + h) * (r + h) / 2 - sigma * r * r / 2) / h - sigma * r)
    with (sigma * h / 2) by (field; lra).
  now apply half_slope_small.
Qed.

(** The penalty as a function of the residual. *)
Lemma smooth_l1_joins_smoothly :
  forall sigma : R,
    0 < sigma ->
    continuity (smooth_l1 sigma)
    /\ forall r, Rabs r = 1 / sigma ->
         derivable_pt_lim (smooth_l1 sigma) r (quadratic_slope sigma r)
         /\ derivable_pt_lim (quadratic_branch sigma) r (quadratic_slope sigma r).
Proof.
  intros sigma Hs. split.
  - apply continuity_ext with (g := smooth_l1_closed_form sigma).
    + intros x. now apply smooth_l1_closed.
    + apply closed_form_continuous.
  - intros r Hr. split; [|now apply quadratic_branch_slope].
    assert (Hcpos : 0 < 1 / sigma) by (apply Rdiv_lt_0_compat; lra).
    unfold quadratic_slope. revert Hr. unfold Rabs.
    destruct (Rcase_abs r) as [Hneg|Hpos]; intros Hr.
    + replace r with (- (1 / sigma)) by lra.
      replace (sigma * - (1 / sigma)) with (- 1) by (field; lra).
      apply derivable_pt_lim_even; [apply smooth_l1_even|].
      now apply smooth_l1_slope_right.
    + rewrite Hr. replace (sigma * (1 / sigma)) with 1 by (field; lra).
      now apply smooth_l1_slope_right.
Qed.

Lemma derivable_pt_lim_shift (f : R -> R) (a x l : R) :
  derivable_pt_lim f (x - a) l -> derivable_pt_lim (fun t => f (t - a)) x l.
Proof.
  intros H eps Heps. destruct (H eps Heps) as [delta Hd].
  exists delta. intros h Hh Hlt.
  replace (x + h - a) with (x - a + h) by ring. now apply Hd.
Qed.

Lemma continuity_shift (f : R -> R) (a : R) :
  continuity f -> continuity (fun t => f (t - a)).
Proof.
  intros Hf.
  change (continuity (comp f (fun t => t - a))).
  apply continuity_comp; [reg | exact Hf].
Qed.

(** C6.  For a positive [sigma] the penalty of [SmoothL1Loss] is a
    continuous function of the prediction, hence of the residual
    [pred - label], and at the residuals [r] with [|r| = 1 / sigma] it has
    a derivative, which is the derivative [sigma * r] of the quadratic
    branch there: the quadratic piece passes into the linear one at
    residual [1 / sigma] without a jump of the slope. *)
Theorem smooth_l1_transition :
  forall (self : SmoothL1Loss.t) (label : R),
    0 < SmoothL1Loss._sigma self ->
    continuity (fun pred => SmoothL1Loss.penalty self pred label)
    /\ forall pred,
         Rabs (pred - label) = 1 / SmoothL1Loss._sigma self ->
         derivable_pt_lim (fun pred => SmoothL1Loss.penalty self pred label) pred
           (quadratic_slope (SmoothL1Loss._sigma self) (pred - label))
         /\ derivable_pt_lim (quadratic_branch (SmoothL1Loss._sigma self))
              (pred - label)
              (quadratic_slope (SmoothL1Loss._sigma self) (pred - label)).
Proof.
  intros self label Hs.
  destruct (smooth_l1_joins_smoothly Hs) as [Hcont Hslope].
  unfold SmoothL1Loss.penalty. split.
  - now apply continuity_shift.
  - intros pred Hr. destruct (Hslope (pred - label) Hr) as [H1 H2].
    split; [|exact H2]. now apply derivable_pt_lim_shift.
Qed.

Lemma smooth_l1_transition_witness :
  continuity (fun pred => SmoothL1Loss.penalty (SmoothL1Loss.__init__ 2 None 0) pred 1)
  /\ forall pred,
       Rabs (pred - 1) = 1 / 2 ->
       derivable_pt_lim
         (fun pred => SmoothL1Loss.penalty (SmoothL1Loss.__init__ 2 None 0) pred 1)
         pred (quadratic_slope 2 (pred - 1))
       /\ derivable_pt_lim (quadratic_branch 2) (pred - 1)
            (quadratic_slope 2 (pred - 1)).
Proof.
  apply (@smooth_l1_transition (SmoothL1Loss.__init__ 2 None 0) 1). cbn. lra.
Defined.

End LossFacts.

(* ================================================================= *)
(** ** Loading the loss module *)

Module LossModuleFacts.

Import LossModule.

(** C3.  Loading loss.py raises [NameError] on the name [Loss]: the
    statements before the first class bind [loss], [_reshape_like],
    [_apply_weighting], [np] and [find_inf] only, the class
    [SmoothL1Loss] reads its base as an attribute of [loss], and the
    class statements of [SigmoidBinaryCrossEntropyLoss] and of
    [SoftmaxCrossEntropyLoss] read the bare name [Loss], which raises in
    every namespace that does not bind it.  So no name of the module
    can be read from outside, and no loss object is ever built. *)
Theorem loss_module_does_not_load :
  load = Raise (NameError "Loss")
  /\ (forall name, getattr name = Raise (NameError "Loss"))
  /\ run (preamble ++ [class_SmoothL1Loss]) []
     = Ok ["SmoothL1Loss"; "find_inf"; "np"; "_reshape_like";
           "_apply_weighting"; "loss"]
  /\ (forall ns,
        bound ns "Loss" = false ->
        class_SigmoidBinaryCrossEntropyLoss ns = Raise (NameError "Loss")
        /\ class_SoftmaxCrossEntropyLoss ns = Raise (NameError "Loss")).
Proof.
  assert (Hload : load = Raise (NameError "Loss")) by reflexivity.
  split; [exact Hload|]. split; [|split].
  - intros name. unfold getattr. now rewrite Hload.
  - reflexivity.
  - intros ns Hns.
    unfold class_SigmoidBinaryCrossEntropyLoss, class_SoftmaxCrossEntropyLoss,
      class_. cbn [eval_all eval]. rewrite Hns. split; reflexivity.
Qed.

End LossModuleFacts.

(* ================================================================= *)
(** ** Further properties of the collation *)

Module BatchifyMore.

Import Batchify Views BatchifyFacts.
Local Open Scope nat_scope.

Section Groups.

Variable A : Type.
Variable minus_one : A.

(** [_batchify] on tuples, in terms of the columns alone. *)
Lemma batchify_tuples_columns (first : list (item A)) (others : list (list (item A))) :
  _batchify minus_one (map Tuple (first :: others))
  = match collect (map (fun c => Some (_batchify minus_one c))
                     (zip_star (first :: others))) with
    | Some (Ok items) => Ok (Fields items)
    | Some (Raise e) => Raise e
    | None => Raise LibraryError
    end.
Proof.
  set (records := first :: others).
  assert (Hcols : map (batchify_fuel minus_one (group_depth (map Tuple records)))
                    (zip_star records)
                  = map (fun c => Some (_batchify minus_one c)) (zip_star records)).
  { apply map_ext_in. intros c Hc. apply batchify_fuel_exact.
    apply column_depth in Hc. lia. }
  unfold _batchify at 1.
  change (batchify_fuel minus_one (S (group_depth (map Tuple records)))
            (map Tuple records))
    with (match as_tuples (map Tuple records) with
          | Raise e => Some (Raise e)
          | Ok rs =>
              match collect (map (batchify_fuel minus_one
                                    (group_depth (map Tuple records)))
                               (zip_star rs)) with
              | None => None
              | Some (Raise e) => Some (Raise e)
              | Some (Ok items) => Some (Ok (Fields items))
              end
          end).
  rewrite as_tuples_tuples, Hcols.
  now destruct (collect _) as [[items|e]|].
Qed.

Lemma collect_raise_in (rs : list (option (result (batch A)))) (e : exn) :
  collect rs = Some (Raise e) -> In (Some (Raise e)) rs.
Proof.
  induction rs as [|[[b|e']|] rest IH]; cbn; intros H; try discriminate.
  - destruct (collect rest) as [[bs|e'']|]; try discriminate.
    right. apply IH. congruence.
  - left. congruence.
Qed.

Lemma fill_raises_value_error (w : nat) :
  forall (data : list (ndarray A)) i buf e,
    fill minus_one w i data buf = Raise e -> exists msg, e = ValueError msg.
Proof.
  induction data as [|l rest IH]; intros i buf e H; cbn in H; [discriminate|].
  unfold assign_rows in H.
  destruct (Nat.eqb (width l) w); cbn in H; [now apply IH in H|].
  destruct (Nat.eqb (width l) 1); cbn in H; [now apply IH in H|].
  injection H as <-. eexists. reflexivity.
Qed.

Lemma as_tensors_raises (data : list (item A)) (e : exn) :
  as_tensors data = Raise e -> e = LibraryError.
Proof.
  induction data as [|[a|fs|l|x] rest IH]; cbn; intros H; try discriminate;
    try congruence.
  destruct (as_tensors rest); cbn in H; [discriminate|]. apply IH. congruence.
Qed.

Lemma as_tuples_raises (data : list (item A)) (e : exn) :
  as_tuples data = Raise e -> e = LibraryError.
Proof.
  induction data as [|[a|fs|l|x] rest IH]; cbn; intros H; try discriminate;
    try congruence.
  destruct (as_tuples rest); cbn in H; [discriminate|]. apply IH. congruence.
Qed.

Lemma as_arrays_raises (data : list (item A)) (e : exn) :
  as_arrays data = Raise e -> e = LibraryError.
Proof.
  induction data as [|[a|fs|l|x] rest IH]; cbn; intros H; try discriminate;
    try congruence.
  destruct (as_arrays rest); cbn in H; [discriminate|]. apply IH. congruence.
Qed.

Lemma asarray_raises (data : list (ndarray A)) (e : exn) :
  asarray data = Raise e -> exists msg, e = ValueError msg.
Proof.
  unfold asarray. destruct data as [|first others]; [discriminate|].
  destruct (_ && _); [|discriminate]. intros H. injection H as <-.
  eexists. reflexivity.
Qed.

Lemma asarray_ok (data data' : list (ndarray A)) :
  asarray data = Ok data' -> data' = data.
Proof.
  unfold asarray. destruct data as [|first others]; [congruence|].
  destruct (_ && _); [discriminate|congruence].
Qed.

Lemma pad_labels_raises (data : list (ndarray A)) (e : exn) :
  data <> [] -> pad_labels minus_one data = Raise e -> exists msg, e = ValueError msg.
Proof.
  intros Hne. unfold pad_labels.
  destruct (asarray data) as [data'|e'] eqn:Ea; cbn [bind].
  - apply asarray_ok in Ea. subst data'.
    destruct data as [|first others]; [contradiction|].
    apply fill_raises_value_error.
  - intros H. injection H as <-. now apply asarray_raises in Ea.
Qed.

Lemma batchify_fuel_no_index_error :
  forall fuel (data : list (item A)),
    data <> [] ->
    forallb (@number_free A) data = true ->
    batchify_fuel minus_one fuel data <> Some (Raise IndexError).
Proof.
  induction fuel as [|f IH]; intros data Hne Hfree; [discriminate|].
  destruct data as [|[a|fs|l|x] rest]; [contradiction| | | |];
    cbn [batchify_fuel].
  - clear Hfree.
    destruct (as_tensors (Tensor a :: rest)) as [xs|e] eqn:E; cbn [bind].
    + unfold stack. destruct xs as [|x xs']; [discriminate|].
      destruct (forallb _ (x :: xs')); discriminate.
    + apply as_tensors_raises in E. subst e. discriminate.
  - destruct (as_tuples (Tuple fs :: rest)) as [records|e] eqn:E.
    + apply as_tuples_inv in E.
      destruct records as [|first others]; [discriminate|].
      destruct (collect _) as [[items|e]|] eqn:Ec; try discriminate.
      intros H. injection H as ->.
      apply collect_raise_in, in_map_iff in Ec.
      destruct Ec as [col [Hcol Hin]].
      revert Hcol. apply IH.
      * apply zip_star_column_length in Hin. now destruct col.
      * apply forallb_forall. intros v Hv.
        destruct (zip_star_In _ _ _ Hin Hv) as [r [Hr Hvr]].
        rewrite E in Hfree. rewrite forallb_forall in Hfree.
        specialize (Hfree (Tuple r) (in_map Tuple _ _ Hr)). cbn in Hfree.
        rewrite forallb_forall in Hfree. now apply Hfree.
    + apply as_tuples_raises in E. subst e. discriminate.
  - destruct (as_arrays (Labels l :: rest)) as [ls|e] eqn:E; cbn [bind].
    + pose proof (as_arrays_length _ E) as Hlen.
      destruct (pad_labels minus_one ls) as [buf|e] eqn:Ep; cbn [bind];
        [discriminate|].
      apply pad_labels_raises in Ep; [|now destruct ls].
      destruct Ep as [msg ->]. discriminate.
    + apply as_arrays_raises in E. subst e. discriminate.
  - cbn in Hfree. discriminate.
Qed.

(** A non-empty group of plain numbers. *)
Lemma batchify_fuel_numbers (fuel : nat) (x : A) (xs : list A) :
  batchify_fuel minus_one (S fuel) (map Number (x :: xs)) = Some (Raise IndexError).
Proof.
  cbn [map batchify_fuel].
  assert (H : forall l : list A, as_numbers (map Number l) = Ok l)
    by (induction l as [|y l IHl]; cbn; [|rewrite IHl]; reflexivity).
  change (Number x :: map Number xs) with (map (@Number A) (x :: xs)).
  now rewrite H.
Qed.

(** X1.  [_batchify] raises [IndexError] on every non-empty group of
    plain numbers, whose records have no axis to measure.  On groups
    whose records hold no plain number at any depth it raises
    [IndexError] on the empty group and on no other: at every level of
    the recursion the groups it is applied to have as many members as
    the group it started from. *)
Theorem batchify_index_error_cases :
  (forall (x : A) (xs : list A),
      _batchify minus_one (map Number (x :: xs)) = Raise IndexError)
  /\ (forall data : list (item A),
        forallb (@number_free A) data = true ->
        (_batchify minus_one data = Raise IndexError <-> data = [])).
Proof.
  split.
  - intros x xs. unfold _batchify. now rewrite batchify_fuel_numbers.
  - intros data Hfree. split.
    + intros H. destruct data as [|v rest]; [reflexivity|]. exfalso.
      assert (Hne : v :: rest <> []) by discriminate.
      pose proof (@batchify_fuel_exact A minus_one (S (group_depth (v :: rest)))
                    (v :: rest) ltac:(lia)) as Hex.
      rewrite H in Hex. revert Hex. now apply batchify_fuel_no_index_error.
    + intros ->. reflexivity.
Qed.

Lemma zip_star_with_empty (records : list (list (item A))) :
  In [] records -> zip_star records = [].
Proof.
  induction records as [|r rest IH]; intros Hin; [contradiction|].
  destruct rest as [|r' rest'].
  - destruct Hin as [->|[]]. reflexivity.
  - change (zip_star (r :: r' :: rest'))
      with (map (fun xc => fst xc :: snd xc)
              (combine r (zip_star (r' :: rest')))).
    destruct Hin as [->|Hin]; [reflexivity|].
    rewrite (IH Hin), combine_nil. reflexivity.
Qed.

(** X2.  A group of tuples one of which is the empty tuple is collated
    into the empty list, without an error, whatever the other tuples
    hold. *)
Theorem batchify_with_empty_tuple :
  forall (first : list (item A)) (others : list (list (item A))),
    In [] (first :: others) ->
    _batchify minus_one (map Tuple (first :: others)) = Ok (Fields []).
Proof.
  intros first others Hin.
  now rewrite batchify_tuples_columns, (zip_star_with_empty _ Hin).
Qed.

Lemma zip_star_firstn (k : nat) (records : list (list (item A))) :
  zip_star (map (firstn k) records) = firstn k (zip_star records).
Proof.
  induction records as [|r rest IH]; [now rewrite firstn_nil|].
  destruct rest as [|r' rest'].
  - cbn. now rewrite firstn_map.
  - change (zip_star (map (firstn k) (r :: r' :: rest')))
      with (map (fun xc => fst xc :: snd xc)
              (combine (firstn k r) (zip_star (map (firstn k) (r' :: rest'))))).
    change (zip_star (r :: r' :: rest'))
      with (map (fun xc => fst xc :: snd xc)
              (combine r (zip_star (r' :: rest')))).
    now rewrite IH, <- combine_firstn, firstn_map.
Qed.

(** X3.  The fields beyond the length of the shortest record are
    ignored: cutting every record of a group of tuples to that length
    does not change the result. *)
Theorem batchify_ignores_extra_fields :
  forall (first : list (item A)) (others : list (list (item A))),
    _batchify minus_one
      (map Tuple (map (firstn (shortest first others)) (first :: others)))
    = _batchify minus_one (map Tuple (first :: others)).
Proof.
  intros first others.
  change (map (firstn (shortest first others)) (first :: others))
    with (firstn (shortest first others) first
            :: map (firstn (shortest first others)) others).
  rewrite !batchify_tuples_columns.
  change (firstn (shortest first others) first
            :: map (firstn (shortest first others)) others)
    with (map (firstn (shortest first others)) (first :: others)).
  rewrite zip_star_firstn, firstn_all2; [reflexivity|].
  unfold shortest. now rewrite zip_star_length.
Qed.

Lemma collect_first_raise (f : list (item A) -> result (batch A))
    (pre post : list (list (item A))) (c : list (item A)) (e : exn) :
  Forall (fun col => exists b, f col = Ok b) pre ->
  f c = Raise e ->
  collect (map (fun col => Some (f col)) (pre ++ c :: post)) = Some (Raise e).
Proof.
  intros Hpre Hc. induction Hpre as [|col pre' [b Hb] _ IH]; cbn.
  - now rewrite Hc.
  - now rewrite Hb, IH.
Qed.

(** X4.  In a group of tuples the columns are collated from left to
    right, and the first column whose collation raises decides: its
    exception is the exception of the whole call, whatever the later
    columns hold. *)
Theorem batchify_first_failing_column :
  forall (first : list (item A)) (others : list (list (item A)))
         (pre post : list (list (item A))) (c : list (item A)) (e : exn),
    zip_star (first :: others) = pre ++ c :: post ->
    Forall (fun col => exists b, _batchify minus_one col = Ok b) pre ->
    _batchify minus_one c = Raise e ->
    _batchify minus_one (map Tuple (first :: others)) = Raise e.
Proof.
  intros first others pre post c e Hz Hpre Hc.
  rewrite batchify_tuples_columns, Hz.
  now rewrite (@collect_first_raise (_batchify minus_one) pre post c e Hpre Hc).
Qed.

End Groups.

Section Arrays.

Variable A : Type.
Variable minus_one : A.

(** The padding branch on any non-empty group of one width. *)
Lemma batchify_labels (w : nat) (data : list (ndarray A)) :
  data <> [] ->
  Forall (fun l => width l = w) data ->
  _batchify minus_one (map Labels data)
  = Ok (Batch (nd_array (List.length data) (list_max (map (fun x : ndarray A => List.length (rows x)) data)) w
                 (map (padded minus_one w (list_max (map (fun x : ndarray A => List.length (rows x)) data))) data))).
Proof.
  intros Hne Hw. destruct data as [|first others]; [contradiction|].
  unfold _batchify. now rewrite (@batchify_fuel_labels A minus_one w _ first others Hw).
Qed.

Lemma fill_refuses_width (w : nat) :
  forall (data : list (ndarray A)) i buf,
    Exists (fun l => width l <> w /\ width l <> 1) data ->
    exists msg, fill minus_one w i data buf = Raise (ValueError msg).
Proof.
  induction data as [|l rest IH]; intros i buf Hbad; [inversion Hbad|].
  cbn. unfold assign_rows.
  destruct (Nat.eqb_spec (width l) w) as [Hw|Hw].
  - cbn. apply IH. inversion Hbad as [? ? [H _]|]; subst; [contradiction|assumption].
  - destruct (Nat.eqb_spec (width l) 1) as [H1|H1].
    + cbn. apply IH.
      inversion Hbad as [? ? [_ H]|]; subst; [contradiction|assumption].
    + cbn. eexists. reflexivity.
Qed.

(** X5.  A label array whose width is neither the width of the first
    record nor 1 cannot be written into the buffer: the whole call raises
    [ValueError], whatever the other records are. *)
Theorem batchify_refuses_other_width :
  forall (first : ndarray A) (others : list (ndarray A)) (l : ndarray A),
    In l others ->
    width l <> width first ->
    width l <> 1 ->
    exists msg,
      _batchify minus_one (map Labels (first :: others)) = Raise (ValueError msg).
Proof.
  intros first others l Hin Hw H1.
  unfold _batchify. cbn [map batchify_fuel].
  change (Labels first :: map Labels others) with (map Labels (first :: others)).
  rewrite as_arrays_labels. cbn [bind]. unfold pad_labels.
  destruct (asarray (first :: others)) as [data'|e] eqn:Ea; cbn [bind].
  - apply asarray_ok in Ea. subst data'.
    destruct (@fill_refuses_width (width first) (first :: others) 0
                (full minus_one (List.length (first :: others))
                   (list_max (map (fun x : ndarray A => List.length (rows x))
                                (first :: others))) (width first)))
      as [msg Hmsg].
    + apply Exists_cons_tl, Exists_exists. exists l. auto.
    + rewrite Hmsg. cbn [bind]. now exists msg.
  - apply asarray_raises in Ea. destruct Ea as [msg ->]. now exists msg.
Qed.

Lemma list_max_constant (k : nat) (l : list nat) :
  l <> [] -> Forall (fun x => x = k) l -> list_max l = k.
Proof.
  intros Hne Hall. destruct l as [|x rest]; [contradiction|].
  inversion Hall as [|? ? Hx Hrest]; subst. clear Hne Hall.
  induction Hrest as [|y rest' Hy _ IH]; cbn in *; lia.
Qed.

Lemma concat_concat_map (T U : Type) (f : T -> list (list U)) (l : list T) :
  List.concat (List.concat (map f l)) = List.concat (map (fun x => List.concat (f x)) l).
Proof.
  induction l as [|x rest IH]; cbn; [reflexivity|].
  now rewrite concat_app, IH.
Qed.

(** X6.  On label arrays that all have the shape of the first one
    nothing is padded, and the padding branch gives what the stacking
    branch gives on the same arrays taken as tensors: the two branches
    agree where both apply. *)
Theorem batchify_equal_arrays_are_stacked :
  forall (first : ndarray A) (others : list (ndarray A)),
    Forall (fun l => width l = width first
                     /\ List.length (rows l) = List.length (rows first)) others ->
    _batchify minus_one (map Labels (first :: others))
    = _batchify minus_one (map Tensor (map (@to_tensor A) (first :: others))).
Proof.
  intros first others Hall.
  assert (Hw : Forall (fun l => width l = width first) (first :: others)).
  { constructor; [reflexivity|]. eapply Forall_impl; [|exact Hall]. now intros l [H _]. }
  assert (Hk : list_max (map (fun x : ndarray A => List.length (rows x)) (first :: others)) = List.length (rows first)).
  { apply list_max_constant; [discriminate|]. apply Forall_map.
    constructor; [reflexivity|]. eapply Forall_impl; [|exact Hall]. now intros l [_ H]. }
  rewrite (@batchify_labels (width first) (first :: others) ltac:(discriminate) Hw), Hk.
  change (map (@to_tensor A) (first :: others))
    with (to_tensor first :: map (@to_tensor A) others).
  rewrite batchify_tensors.
  - unfold nd_array. do 3 f_equal.
    + cbn. now rewrite length_map.
    + change (to_tensor first :: map (@to_tensor A) others)
        with (map (@to_tensor A) (first :: others)).
      rewrite map_map. cbn [to_tensor elems].
      rewrite <- (concat_concat_map (@rows A)). do 2 f_equal.
      apply map_ext_in. intros l Hl. unfold padded.
      replace (List.length (rows l)) with (List.length (rows first)).
      * rewrite Nat.sub_diag. apply app_nil_r.
      * destruct Hl as [<-|Hl]; [reflexivity|].
        rewrite Forall_forall in Hall. symmetry. now apply Hall.
  - apply Forall_map. eapply Forall_impl; [|exact Hall].
    intros l [H1 H2]. cbn. now rewrite H1, H2.
Qed.

(** X7.  The padding cannot be told from data: appending a row of [-1]
    to a record that is shorter than the longest one gives the same
    batch.  So a batch does not determine how many rows its records
    had when [-1] can occur in a label row. *)
Theorem batchify_padding_collides :
  forall (w : nat) (before after : list (ndarray A)) (l : ndarray A),
    Forall (fun x => width x = w) (before ++ l :: after) ->
    List.length (rows l) < list_max (map (fun x : ndarray A => List.length (rows x)) (before ++ l :: after)) ->
    _batchify minus_one
      (map Labels (before ++ append_row l (repeat minus_one w) :: after))
    = _batchify minus_one (map Labels (before ++ l :: after)).
Proof.
  intros w before after l Hw Hlt.
  assert (Hw' : Forall (fun x => width x = w)
                  (before ++ append_row l (repeat minus_one w) :: after)).
  { apply Forall_app in Hw. destruct Hw as [Hb Hl].
    apply Forall_app. split; [assumption|].
    inversion Hl; subst. constructor; [reflexivity|assumption]. }
  assert (Hne : before ++ l :: after <> []) by (now destruct before).
  assert (Hne' : before ++ append_row l (repeat minus_one w) :: after <> [])
    by (now destruct before).
  rewrite (batchify_labels Hne' Hw'), (batchify_labels Hne Hw).
  assert (Hpad : list_max (map (fun x : ndarray A => List.length (rows x))
                             (before ++ append_row l (repeat minus_one w) :: after))
                 = list_max (map (fun x : ndarray A => List.length (rows x)) (before ++ l :: after))).
  { rewrite !map_app, !list_max_app in *. cbn [map list_max fold_right] in *.
    cbn [append_row rows]. rewrite length_app. cbn [List.length].
    change (fold_right Nat.max 0 (map (fun x : ndarray A => List.length (rows x)) after))
      with (list_max (map (fun x : ndarray A => List.length (rows x)) after)) in *.
    lia. }
  rewrite Hpad, !length_app. cbn [List.length].
  remember (list_max (map (fun x : ndarray A => List.length (rows x))
                        (before ++ l :: after))) as pad eqn:Epad.
  clear Epad Hpad.
  do 3 f_equal. rewrite !map_app. cbn [map]. do 2 f_equal.
  unfold padded. cbn [append_row rows]. rewrite length_app, <- app_assoc.
  cbn [List.length app]. f_equal.
  replace (pad - List.length (rows l))
    with (S (pad - (List.length (rows l) + 1))) by lia.
  reflexivity.
Qed.

End Arrays.


Local Open Scope Z_scope.

Lemma batchify_with_empty_tuple_witness :
  _batchify (-1) (map Tuple [[]; [Tensor (mkNDArray [1%nat] [5])]])
  = Ok (Fields []).
Proof.
  apply (@batchify_with_empty_tuple Z (-1) [] [[Tensor (mkNDArray [1%nat] [5])]]).
  left. reflexivity.
Defined.

Lemma batchify_first_failing_column_witness :
  _batchify (-1)
    (map Tuple
       [[Tensor (mkNDArray [1%nat] [1]); Labels (mkndarray [[1; 1]] 2)];
        [Tensor (mkNDArray [1%nat] [2]); Labels (mkndarray [[1; 1; 1]] 3)]])
  = Raise (ValueError "could not broadcast input array").
Proof.
  apply (@batchify_first_failing_column Z (-1)
           [Tensor (mkNDArray [1%nat] [1]); Labels (mkndarray [[1; 1]] 2)]
           [[Tensor (mkNDArray [1%nat] [2]); Labels (mkndarray [[1; 1; 1]] 3)]]
           [[Tensor (mkNDArray [1%nat] [1]); Tensor (mkNDArray [1%nat] [2])]]
           []
           [Labels (mkndarray [[1; 1]] 2); Labels (mkndarray [[1; 1; 1]] 3)]).
  - reflexivity.
  - constructor; [|constructor]. eexists. vm_compute. reflexivity.
  - vm_compute. reflexivity.
Defined.

Lemma batchify_refuses_other_width_witness :
  exists msg,
    _batchify (-1)
      (map Labels [mkndarray [[1; 1]] 2; mkndarray [[1; 1; 1]] 3])
    = Raise (ValueError msg).
Proof.
  apply (@batchify_refuses_other_width Z (-1) (mkndarray [[1; 1]] 2)
           [mkndarray [[1; 1; 1]] 3] (mkndarray [[1; 1; 1]] 3)).
  - left. reflexivity.
  - cbn. discriminate.
  - cbn. discriminate.
Defined.

Lemma batchify_equal_arrays_are_stacked_witness :
  _batchify (-1) (map Labels [mkndarray [[1; 2]] 2; mkndarray [[3; 4]] 2])
  = _batchify (-1)
      (map Tensor (map (@to_tensor Z)
                     [mkndarray [[1; 2]] 2; mkndarray [[3; 4]] 2])).
Proof.
  apply (@batchify_equal_arrays_are_stacked Z (-1) (mkndarray [[1; 2]] 2)
           [mkndarray [[3; 4]] 2]).
  repeat constructor.
Defined.

Lemma batchify_padding_collides_witness :
  _batchify (-1)
    (map Labels ([mkndarray [[1]; [2]] 1]
                   ++ append_row (mkndarray [[3]] 1) (repeat (-1) 1) :: []))
  = _batchify (-1)
      (map Labels ([mkndarray [[1]; [2]] 1] ++ mkndarray [[3]] 1 :: [])).
Proof.
  apply (@batchify_padding_collides Z (-1) 1%nat [mkndarray [[1]; [2]] 1] []
           (mkndarray [[3]] 1)).
  - repeat constructor.
  - cbn. lia.
Defined.

End BatchifyMore.

(* ================================================================= *)
(** ** Further properties of the loader *)

Module DataLoaderMore.

Import Sampler Batchify DataLoader Views.
Local Open Scope nat_scope.

Section Construction.

Variable A : Type.

(** X8.  With a batch size and no batch sampler, any last-batch policy is
    accepted at construction and stored as it is, the empty string only
    being replaced by [keep]: the constructor does not check that the
    policy is one the batch sampler knows. *)
Theorem init_stores_policy_unchecked :
  forall (dataset : list (item A)) size shuffle sampler (policy : string),
    shuffle && given sampler = false ->
    exists dl,
      __init__ dataset (Some size) shuffle sampler (Some policy) None = Ok dl
      /\ _last_batch (_batch_sampler dl)
         = (if String.eqb policy "" then "keep" else policy)
      /\ _batch_size (_batch_sampler dl) = size
      /\ _prev (_batch_sampler dl) = []
      /\ _dataset dl = dataset.
Proof.
  intros dataset size shuffle sampler policy Hok.
  unfold __init__.
  destruct sampler as [s|], shuffle; cbn in Hok; try discriminate; cbn;
    eexists; (split; [reflexivity|]); cbn; destruct policy; auto.
Qed.

(** X9.  Building a loader from a batch size and building it from the
    batch sampler the first loader made give the same loader. *)
Theorem init_from_own_batch_sampler :
  forall (dataset : list (item A)) batch_size shuffle sampler last_batch dl,
    __init__ dataset batch_size shuffle sampler last_batch None = Ok dl ->
    __init__ dataset None false None None (Some (_batch_sampler dl)) = Ok dl.
Proof.
  intros dataset batch_size shuffle sampler last_batch dl H.
  unfold __init__ in *.
  destruct batch_size as [size|]; [|discriminate].
  destruct sampler as [s|], shuffle; cbn in H; try discriminate;
    injection H as <-; reflexivity.
Qed.

End Construction.

Section Iteration.

Variable A : Type.
Variable minus_one : A.

Lemma mapM_length (T U : Type) (f : T -> result U) :
  forall (l : list T) (ys : list U),
    mapM f l = Ok ys -> List.length ys = List.length l.
Proof.
  induction l as [|x rest IH]; intros ys H; cbn in H.
  - now injection H as <-.
  - destruct (f x) as [y|e]; cbn in H; [|discriminate].
    destruct (mapM f rest) as [ys'|e]; cbn in H; [|discriminate].
    injection H as <-. cbn. now rewrite (IH ys').
Qed.

Lemma mapM_raise (T U : Type) (f : T -> result U) :
  forall (l : list T) (e : exn),
    mapM f l = Raise e -> exists x, In x l /\ f x = Raise e.
Proof.
  induction l as [|x rest IH]; intros e H; cbn in H; [discriminate|].
  destruct (f x) as [y|e'] eqn:E; cbn in H.
  - destruct (mapM f rest) as [ys'|e'] eqn:Er; cbn in H; [discriminate|].
    injection H as ->. destruct (IH e eq_refl) as [x' [Hin Hx']].
    exists x'. split; [now right|assumption].
  - injection H as ->. exists x. split; [now left|assumption].
Qed.

Lemma mapM_getitem_in_range (dataset : list (item A)) :
  forall indices : list nat,
    Forall (fun idx => idx < List.length dataset) indices ->
    exists records,
      mapM (getitem dataset) indices = Ok records
      /\ List.length records = List.length indices.
Proof.
  intros indices. induction indices as [|idx rest IH]; intros Hall; cbn.
  - exists []. auto.
  - inversion Hall as [|? ? Hidx Hrest]; subst.
    destruct (IH Hrest) as [records [Hr Hlen]]. unfold getitem at 1.
    destruct (nth_error dataset idx) as [r|] eqn:E.
    + cbn. rewrite Hr. cbn. exists (r :: records). cbn. auto.
    + apply nth_error_None in E. lia.
Qed.

(** Counting the groups: with a positive size, [group] produces one full
    group per [size] indices and leaves the remainder in the buffer. *)
Lemma group_count (size : nat) :
  0 < size ->
  forall idxs batch,
    List.length batch < size ->
    List.length (fst (group (Z.of_nat size) batch idxs))
    = (List.length batch + List.length idxs) / size
    /\ List.length (snd (group (Z.of_nat size) batch idxs))
       = (List.length batch + List.length idxs) mod size.
Proof.
  intros Hs. induction idxs as [|i rest IH]; intros batch Hlt; cbn.
  - rewrite Nat.add_0_r. split; [now rewrite Nat.div_small | now rewrite Nat.mod_small].
  - rewrite length_app. cbn [List.length].
    destruct (Z.eqb_spec (Z.of_nat (List.length batch + 1)) (Z.of_nat size)) as [E|E].
    + apply Nat2Z.inj in E.
      destruct (IH [] Hs) as [IH1 IH2]. cbn [List.length] in IH1, IH2.
      destruct (group (Z.of_nat size) [] rest) as [out buffered]. cbn in *.
      split.
      * replace (List.length batch + S (List.length rest))
          with (1 * size + List.length rest) by lia.
        rewrite Nat.div_add_l by lia. lia.
      * replace (List.length batch + S (List.length rest))
          with (List.length rest + 1 * size) by lia.
        now rewrite Nat.Div0.mod_add.
    + assert (Hlt' : List.length (batch ++ [i]) < size).
      { rewrite length_app. cbn. lia. }
      destruct (IH (batch ++ [i]) Hlt') as [IH1 IH2].
      rewrite length_app in IH1, IH2. cbn [List.length] in IH1, IH2.
      replace (List.length batch + S (List.length rest))
        with (List.length batch + 1 + List.length rest) by lia.
      auto.
Qed.

Lemma group_nonempty (size : Z) :
  forall idxs batch, Forall (fun g => g <> []) (fst (group size batch idxs)).
Proof.
  induction idxs as [|i rest IH]; intros batch; cbn; [constructor|].
  destruct (Z.of_nat (List.length (batch ++ [i])) =? size)%Z.
  - specialize (IH []). destruct (group size [] rest) as [out buffered].
    cbn in *. constructor; [now destruct batch | assumption].
  - apply IH.
Qed.

(** X10.  A loader built with a positive batch size and nothing else
    yields, in one pass, one batch per full group of [size] records and
    one more when [size] does not divide the number of records. *)
Theorem iter_number_of_batches :
  forall (dataset : list (item A)) (size : Z) dl rng out dl',
    (0 < size)%Z ->
    __init__ dataset (Some size) false None None None = Ok dl ->
    __iter__ minus_one rng dl = Ok (out, dl') ->
    List.length out = groups_of (List.length dataset) (Z.to_nat size).
Proof.
  intros dataset size dl rng out dl' Hs Hinit Hiter.
  cbn in Hinit. injection Hinit as <-.
  unfold __iter__, Sampler.iter in Hiter. cbn in Hiter.
  assert (Hsz : size = Z.of_nat (Z.to_nat size)) by lia.
  destruct (@group_count (Z.to_nat size) ltac:(lia)
              (seq 0 (List.length dataset)) []) as [H1 H2]; [cbn; lia|].
  rewrite <- Hsz in H1, H2. rewrite length_seq in H1, H2. cbn in H1, H2.
  destruct (group size [] (seq 0 (List.length dataset))) as [groups buffered].
  cbn in H1, H2. unfold groups_of. rewrite <- H1, <- H2.
  destruct buffered as [|b rest]; cbn in Hiter.
  - destruct (mapM _ groups) as [ys|e] eqn:E; cbn in Hiter; [|discriminate].
    injection Hiter as <- _. apply mapM_length in E. cbn. lia.
  - destruct (mapM _ (groups ++ [b :: rest])) as [ys|e] eqn:E; cbn in Hiter;
      [|discriminate].
    injection Hiter as <- _. apply mapM_length in E.
    rewrite length_app in E. cbn in *. lia.
Qed.

Lemma batchify_no_index_error (data : list (item A)) :
  data <> [] ->
  forallb (@number_free A) data = true ->
  _batchify minus_one data <> Raise IndexError.
Proof.
  intros Hne Hfree H.
  pose proof (@BatchifyFacts.batchify_fuel_exact A minus_one
                (S (group_depth data)) data ltac:(lia)) as Hex.
  rewrite H in Hex. revert Hex.
  now apply BatchifyMore.batchify_fuel_no_index_error.
Qed.

Lemma batchify_on_numbers (data : list (item A)) :
  data <> [] ->
  forallb (@is_number A) data = true ->
  _batchify minus_one data = Raise IndexError.
Proof.
  intros Hne Hnum.
  assert (Hxs : exists xs, data = map Number xs).
  { clear Hne. induction data as [|v rest IH]; [now exists []|].
    cbn in Hnum. apply andb_prop in Hnum. destruct Hnum as [Hv Hrest].
    destruct (IH Hrest) as [xs ->]. destruct v; try discriminate.
    now exists (x :: xs). }
  destruct Hxs as [[|x xs] ->]; [contradiction|].
  unfold _batchify. now rewrite BatchifyMore.batchify_fuel_numbers.
Qed.

Lemma mapM_getitem_members (dataset : list (item A)) :
  forall (indices : list nat) (records : list (item A)),
    mapM (getitem dataset) indices = Ok records ->
    Forall (fun r => In r dataset) records.
Proof.
  intros indices. induction indices as [|idx rest IH]; intros records H; cbn in H.
  - injection H as <-. constructor.
  - unfold getitem at 1 in H.
    destruct (nth_error dataset idx) as [r|] eqn:E; cbn in H; [|discriminate].
    destruct (mapM (getitem dataset) rest) as [rs|e]; cbn in H; [|discriminate].
    injection H as <-. constructor; [|now apply IH].
    eapply nth_error_In. exact E.
Qed.

Lemma forallb_members (P : item A -> bool) (dataset records : list (item A)) :
  forallb P dataset = true ->
  Forall (fun r => In r dataset) records ->
  forallb P records = true.
Proof.
  intros HP Hin. rewrite forallb_forall in *. rewrite Forall_forall in Hin.
  intros r Hr. apply HP. now apply Hin.
Qed.

(** What a loader built with a batch size alone holds. *)
Lemma init_default_loader (dataset : list (item A)) size shuffle sampler dl :
  __init__ dataset (Some size) shuffle sampler None None = Ok dl ->
  exists s, dl = mkDataLoader dataset (mkBatchSampler s size "keep" [])
            /\ (sampler = None ->
                s = if shuffle then RandomSampler (List.length dataset)
                    else SequentialSampler (List.length dataset)).
Proof.
  unfold __init__.
  destruct sampler as [s|], shuffle; cbn; intros H; try discriminate;
    injection H as <-; eexists; (split; [reflexivity|]); intros; congruence.
Qed.

(** The groups of a pass under [keep]: non-empty, and made of indices
    the sampler drew. *)
Lemma keep_groups (rng : list nat -> list nat) (s : Sampler.t) (size : Z) :
  exists groups,
    Sampler.iter rng (mkBatchSampler s size "keep" [])
    = Ok (groups, mkBatchSampler s size "keep" [])
    /\ Forall (fun g => g <> []
                        /\ Forall (fun idx => In idx (indices rng s)) g) groups
    /\ List.concat groups = indices rng s.
Proof.
  unfold Sampler.iter. cbn.
  pose proof (DataLoaderFacts.group_keeps_all size (indices rng s) []) as Hall.
  pose proof (group_nonempty size (indices rng s) []) as Hne.
  destruct (group size [] (indices rng s)) as [out buffered]. cbn in Hall, Hne.
  assert (Hout : Forall (fun g => g <> []
                   /\ Forall (fun idx => In idx (indices rng s)) g) out).
  { rewrite Forall_forall in *. intros g Hg. split; [now apply Hne|].
    apply Forall_forall. intros idx Hidx. rewrite <- Hall.
    apply in_or_app. left. apply in_concat. exists g. auto. }
  destruct buffered as [|b rest].
  - exists out. rewrite app_nil_r in Hall. auto.
  - exists (out ++ [b :: rest]). split; [reflexivity|]. split.
    + apply Forall_app. split; [assumption|]. constructor; [|constructor].
      split; [discriminate|]. apply Forall_forall. intros idx Hidx.
      rewrite <- Hall. apply in_or_app. now right.
    + rewrite concat_app. cbn. now rewrite app_nil_r.
Qed.

(** X11.  Iterating over a loader built with a batch size and no sampler
    of the caller's: when no record of the dataset holds a plain number,
    the pass never raises [IndexError], every index looked up being
    within the dataset and no group handed to [_batchify] being empty
    (for a shuffling loader this needs only that the shuffle returns
    indices it was given); when the dataset is a non-empty sequence of
    plain numbers, as a one-dimensional array used directly as a dataset
    is, the pass of the loader that does not shuffle raises [IndexError]
    at its first batch. *)
Theorem iter_index_error_cases :
  forall (dataset : list (item A)) (size : Z) (shuffle : bool) dl
         (rng : list nat -> list nat),
    (forall l x, In x (rng l) -> In x l) ->
    __init__ dataset (Some size) shuffle None None None = Ok dl ->
    (forallb (@number_free A) dataset = true ->
     __iter__ minus_one rng dl <> Raise IndexError)
    /\ (shuffle = false ->
        dataset <> [] ->
        forallb (@is_number A) dataset = true ->
        __iter__ minus_one rng dl = Raise IndexError).
Proof.
  intros dataset size shuffle dl rng Hrng Hinit.
  destruct (init_default_loader _ _ _ _ Hinit) as [s [-> Hs]].
  specialize (Hs eq_refl).
  destruct (keep_groups rng s size) as [groups [Hpass [Hgroups Hcover]]].
  assert (Hrange : forall g, In g groups ->
            Forall (fun idx => idx < List.length dataset) g).
  { intros g Hg. rewrite Forall_forall in Hgroups.
    destruct (Hgroups g Hg) as [_ Hin].
    eapply Forall_impl; [|exact Hin]. cbn. intros idx Hidx. subst s.
    destruct shuffle; cbn in Hidx; [apply Hrng in Hidx|];
      apply in_seq in Hidx; lia. }
  unfold __iter__. cbn [_batch_sampler _dataset].
  rewrite Hpass. cbn [bind fst snd]. split.
  - intros Hfree Hiter.
    destruct (mapM _ groups) as [out|e] eqn:E; cbn [bind] in Hiter; [discriminate|].
    injection Hiter as ->.
    apply mapM_raise in E. destruct E as [g [Hg Hraise]].
    rewrite Forall_forall in Hgroups. destruct (Hgroups g Hg) as [Hne _].
    destruct (mapM_getitem_in_range dataset (Hrange g Hg)) as [records [Hr Hlen]].
    rewrite Hr in Hraise. cbn [bind] in Hraise.
    revert Hraise. apply batchify_no_index_error.
    + destruct records; [|discriminate]. destruct g; [contradiction|discriminate].
    + eapply forallb_members; [exact Hfree|].
      eapply mapM_getitem_members. exact Hr.
  - intros -> Hne Hnum. subst s. cbn in Hcover.
    destruct groups as [|g rest].
    + cbn in Hcover. destruct dataset; [contradiction|discriminate].
    + assert (Hg : In g (g :: rest)) by now left.
      rewrite Forall_forall in Hgroups. destruct (Hgroups g Hg) as [Hgne _].
      destruct (mapM_getitem_in_range dataset (Hrange g Hg)) as [records [Hr Hlen]].
      cbn [mapM]. rewrite Hr. cbn [bind].
      rewrite batchify_on_numbers; [reflexivity| |].
      * destruct records; [|discriminate]. destruct g; [contradiction|discriminate].
      * eapply forallb_members; [exact Hnum|].
        eapply mapM_getitem_members. exact Hr.
Qed.

(** X12.  A pass over a loader built without a last-batch policy leaves
    the loader as it was: nothing is carried from one pass to the next,
    so every pass starts from the same state. *)
Theorem iter_leaves_loader_unchanged :
  forall (dataset : list (item A)) (size : Z) shuffle sampler dl
         (rng : list nat -> list nat) out dl',
    __init__ dataset (Some size) shuffle sampler None None = Ok dl ->
    __iter__ minus_one rng dl = Ok (out, dl') ->
    dl' = dl.
Proof.
  intros dataset size shuffle sampler dl rng out dl' Hinit Hiter.
  destruct (init_default_loader _ _ _ _ Hinit) as [s [-> _]].
  destruct (keep_groups rng s size) as [groups [Hpass _]].
  unfold __iter__ in Hiter. cbn [_batch_sampler _dataset] in Hiter.
  rewrite Hpass in Hiter. cbn [bind fst snd] in Hiter.
  destruct (mapM _ groups) as [ys|e]; cbn [bind] in Hiter; [|discriminate].
  now injection Hiter as _ <-.
Qed.

End Iteration.


Local Open Scope Z_scope.

Lemma init_stores_policy_unchecked_witness :
  exists dl,
    __init__ (@nil (item Z)) (Some 2) false None (Some "sometimes") None = Ok dl
    /\ _last_batch (_batch_sampler dl)
       = (if String.eqb "sometimes" "" then "keep" else "sometimes")
    /\ _batch_size (_batch_sampler dl) = 2
    /\ _prev (_batch_sampler dl) = []
    /\ _dataset dl = [].
Proof.
  apply (@init_stores_policy_unchecked Z [] 2 false None "sometimes").
  reflexivity.
Defined.

Lemma init_from_own_batch_sampler_witness :
  __init__ (@nil (item Z)) None false None None
    (Some (_batch_sampler
             (mkDataLoader (@nil (item Z))
                (mkBatchSampler (SequentialSampler 0) 2 "discard" []))))
  = Ok (mkDataLoader (@nil (item Z))
          (mkBatchSampler (SequentialSampler 0) 2 "discard" [])).
Proof.
  apply (@init_from_own_batch_sampler Z [] (Some 2) false None (Some "discard")).
  reflexivity.
Defined.

Lemma iter_number_of_batches_witness :
  exists out dl',
    __iter__ (-1) (fun l => l)
      (mkDataLoader (map (fun k => Tensor (mkNDArray [1%nat] [k])) [1; 2; 3; 4])
         (mkBatchSampler (SequentialSampler 4) 3 "keep" []))
    = Ok (out, dl')
    /\ List.length out = groups_of 4 (Z.to_nat 3).
Proof.
  eexists. eexists. split; [vm_compute; reflexivity|].
  apply (@iter_number_of_batches Z (-1)
           (map (fun k => Tensor (mkNDArray [1%nat] [k])) [1; 2; 3; 4]) 3
           (mkDataLoader (map (fun k => Tensor (mkNDArray [1%nat] [k])) [1; 2; 3; 4])
              (mkBatchSampler (SequentialSampler 4) 3 "keep" []))
           (fun l => l) _
           (mkDataLoader (map (fun k => Tensor (mkNDArray [1%nat] [k])) [1; 2; 3; 4])
              (mkBatchSampler (SequentialSampler 4) 3 "keep" []))).
  - lia.
  - reflexivity.
  - vm_compute. reflexivity.
Defined.

Lemma iter_index_error_cases_witness :
  (forallb (@number_free Z) (map Number [1; 2; 3; 4]) = true ->
   __iter__ (-1) (fun l => l)
     (mkDataLoader (map Number [1; 2; 3; 4])
        (mkBatchSampler (SequentialSampler 4) 2 "keep" []))
   <> Raise IndexError)
  /\ (false = false ->
      map (@Number Z) [1; 2; 3; 4] <> [] ->
      forallb (@is_number Z) (map Number [1; 2; 3; 4]) = true ->
      __iter__ (-1) (fun l => l)
        (mkDataLoader (map Number [1; 2; 3; 4])
           (mkBatchSampler (SequentialSampler 4) 2 "keep" []))
      = Raise IndexError).
Proof.
  apply (@iter_index_error_cases Z (-1) (map Number [1; 2; 3; 4]) 2 false).
  - intros l x H. exact H.
  - reflexivity.
Defined.

Lemma iter_leaves_loader_unchanged_witness :
  exists out,
    __iter__ (-1) (fun l => l)
      (mkDataLoader (map (fun k => Tensor (mkNDArray [1%nat] [k])) [1; 2; 3; 4])
         (mkBatchSampler (SequentialSampler 4) 3 "keep" []))
    = Ok (out,
          mkDataLoader (map (fun k => Tensor (mkNDArray [1%nat] [k])) [1; 2; 3; 4])
            (mkBatchSampler (SequentialSampler 4) 3 "keep" [])).
Proof.
  assert (H : exists out dl',
             __iter__ (-1) (fun l => l)
               (mkDataLoader
                  (map (fun k => Tensor (mkNDArray [1%nat] [k])) [1; 2; 3; 4])
                  (mkBatchSampler (SequentialSampler 4) 3 "keep" []))
             = Ok (out, dl'))
    by (eexists; eexists; vm_compute; reflexivity).
  destruct H as [out [dl' H]]. exists out. rewrite H. do 2 f_equal.
  apply (@iter_leaves_loader_unchanged Z (-1)
           (map (fun k => Tensor (mkNDArray [1%nat] [k])) [1; 2; 3; 4]) 3
           false None _ (fun l => l) out dl').
  - reflexivity.
  - exact H.
Defined.

End DataLoaderMore.

(* ================================================================= *)
(** ** Further properties of the losses *)

Module LossMore.

Import Loss LossFacts Views.
Local Open Scope R_scope.

Lemma softplus_pos (x : R) : 0 < ln (1 + exp x).
Proof.
  rewrite <- ln_1. apply ln_increasing; [lra|]. pose proof (exp_pos x). lra.
Qed.

Lemma softplus_shift (x : R) : ln (1 + exp x) = x + ln (1 + exp (- x)).
Proof.
  pose proof (exp_pos x) as Hx. pose proof (exp_pos (- x)) as Hnx.
  rewrite <- (ln_exp x) at 2. rewrite <- ln_mult by lra.
  f_equal. rewrite Rmult_plus_distr_l, <- exp_plus.
  replace (x + - x) with 0 by ring. rewrite exp_0. ring.
Qed.

Lemma ln_sigmoid (x : R) : ln (sigmoid x) = - ln (1 + exp (- x)).
Proof.
  unfold sigmoid. pose proof (exp_pos (- x)).
  replace (1 / (1 + exp (- x))) with (/ (1 + exp (- x))) by (field; lra).
  apply ln_Rinv. lra.
Qed.

Lemma ln_one_minus_sigmoid (x : R) :
  ln (1 - sigmoid x) = - x - ln (1 + exp (- x)).
Proof.
  unfold sigmoid. pose proof (exp_pos (- x)) as H.
  replace (1 - 1 / (1 + exp (- x))) with (exp (- x) / (1 + exp (- x)))
    by (field; lra).
  rewrite ln_quotient by lra. now rewrite ln_exp.
Qed.

(** X13.  On logits the loss computes what its documentation states:
    with [prob = 1 / (1 + exp (- pred))] it is
    [-(label * log prob + (1 - label) * log (1 - prob))], for every
    prediction and every label. *)
Theorem bce_logits_is_documented_formula :
  forall (weight : option R) (batch_axis : Z) (pred label : R),
    SigmoidBinaryCrossEntropyLoss.elementwise
      (SigmoidBinaryCrossEntropyLoss.__init__ false weight batch_axis) pred label
    = - (label * ln (sigmoid pred) + (1 - label) * ln (1 - sigmoid pred)).
Proof.
  intros weight batch_axis pred label.
  unfold SigmoidBinaryCrossEntropyLoss.elementwise,
    SigmoidBinaryCrossEntropyLoss.__init__.
  cbn [SigmoidBinaryCrossEntropyLoss._from_sigmoid negb].
  rewrite from_logits_softplus, ln_sigmoid, ln_one_minus_sigmoid. ring.
Qed.

(** X14.  The form used on logits is the stable one: both arguments of
    [exp] are at most 0, so neither can overflow, and the argument of
    [log] is [1 + exp (- |pred|)], which lies in the interval (1, 2]. *)
Theorem bce_logits_is_stable :
  forall pred : R,
    let max_val := relu (- pred) in
    - max_val <= 0
    /\ - pred - max_val <= 0
    /\ exp (- max_val) + exp (- pred - max_val) = 1 + exp (- Rabs pred)
    /\ 1 < exp (- max_val) + exp (- pred - max_val) <= 2.
Proof.
  intros pred max_val. subst max_val. unfold relu.
  assert (Hsum : exp (- Rmax (- pred) 0) + exp (- pred - Rmax (- pred) 0)
                 = 1 + exp (- Rabs pred)).
  { destruct (Rle_dec (- pred) 0) as [H|H].
    - rewrite Rmax_right, Rabs_right by lra.
      rewrite Ropp_0, exp_0. f_equal. f_equal. ring.
    - rewrite Rmax_left, Rabs_left by lra.
      replace (- pred - - pred) with 0 by ring. rewrite exp_0. ring. }
  split; [|split; [|split; [exact Hsum|]]].
  - pose proof (Rmax_r (- pred) 0). lra.
  - pose proof (Rmax_l (- pred) 0). lra.
  - rewrite Hsum. pose proof (exp_pos (- Rabs pred)) as Hpos.
    split; [lra|].
    assert (Hle : exp (- Rabs pred) <= 1).
    { rewrite <- exp_0. pose proof (Rabs_pos pred) as Ha.
      destruct Ha as [Ha|Ha].
      - left. apply exp_increasing. lra.
      - rewrite <- Ha, Ropp_0. lra. }
    lra.
Qed.

(** X15.  On logits the loss is strictly positive for every prediction
    when the label is between 0 and 1. *)
Theorem bce_logits_positive :
  forall pred label : R,
    0 <= label <= 1 ->
    0 < SigmoidBinaryCrossEntropyLoss.from_logits pred label.
Proof.
  intros pred label [H0 H1]. rewrite from_logits_softplus.
  pose proof (softplus_pos pred) as Hp. pose proof (softplus_pos (- pred)) as Hn.
  rewrite softplus_shift in Hp.
  replace (pred - pred * label + ln (1 + exp (- pred)))
    with (label * ln (1 + exp (- pred))
          + (1 - label) * (pred + ln (1 + exp (- pred)))) by ring.
  destruct (Rle_lt_dec label (/ 2)) as [Hl|Hl].
  - apply Rplus_le_lt_0_compat.
    + apply Rmult_le_pos; lra.
    + apply Rmult_lt_0_compat; lra.
  - apply Rplus_lt_le_0_compat.
    + apply Rmult_lt_0_compat; lra.
    + apply Rmult_le_pos; lra.
Qed.

(** X16.  On logits the loss keeps its value when the classes are
    exchanged: negating the prediction and replacing the label [y] by
    [1 - y] changes nothing. *)
Theorem bce_logits_label_flip :
  forall pred label : R,
    SigmoidBinaryCrossEntropyLoss.from_logits (- pred) (1 - label)
    = SigmoidBinaryCrossEntropyLoss.from_logits pred label.
Proof.
  intros pred label. rewrite !from_logits_softplus, Ropp_involutive.
  rewrite (softplus_shift pred). ring.
Qed.

Lemma ln_le (a b : R) : 0 < a -> a <= b -> ln a <= ln b.
Proof.
  intros Ha [Hlt| <-]; [left; now apply ln_increasing | lra].
Qed.

(** X17.  On probabilities and labels between 0 and 1 the branch on
    probabilities stays between [-ln (1 + eps)] and [-ln eps] with
    [eps = 1e-12]: the epsilon floor keeps it finite at 0 and at 1, and
    lets it go below zero, as it does for prediction 1 with label 1. *)
Theorem bce_probabilities_bounds :
  forall pred label : R,
    0 <= pred <= 1 -> 0 <= label <= 1 ->
    - ln (1 + eps12) <= SigmoidBinaryCrossEntropyLoss.from_sigmoid pred label
                     <= - ln eps12
    /\ SigmoidBinaryCrossEntropyLoss.from_sigmoid 1 1 = - ln (1 + eps12)
    /\ - ln (1 + eps12) < 0.
Proof.
  intros pred label [Hp0 Hp1] [Hl0 Hl1].
  unfold SigmoidBinaryCrossEntropyLoss.from_sigmoid.
  pose proof eps12_pos as He.
  pose proof (@ln_le eps12 (pred + eps12) He ltac:(lra)) as A1.
  pose proof (@ln_le (pred + eps12) (1 + eps12) ltac:(lra) ltac:(lra)) as A2.
  pose proof (@ln_le eps12 (1 - pred + eps12) He ltac:(lra)) as B1.
  pose proof (@ln_le (1 - pred + eps12) (1 + eps12) ltac:(lra) ltac:(lra)) as B2.
  split; [split; nra|]. split.
  - replace (1 - 1 + eps12) with eps12 by ring. ring.
  - pose proof (ln_increasing 1 (1 + eps12) ltac:(lra) ltac:(lra)) as H.
    rewrite ln_1 in H. lra.
Qed.

Lemma sigmoid_range (x : R) : 0 < sigmoid x < 1.
Proof.
  unfold sigmoid. pose proof (exp_pos (- x)) as H.
  split.
  - apply Rdiv_lt_0_compat; lra.
  - apply Rmult_lt_reg_r with (r := 1 + exp (- x)); [lra|].
    replace (1 / (1 + exp (- x)) * (1 + exp (- x))) with 1 by (field; lra). lra.
Qed.

Lemma pow_unit_interval (x : R) (n : nat) : 0 <= x <= 1 -> 0 <= x ^ n <= 1.
Proof.
  intros [H0 H1]. split; [now apply pow_le|].
  rewrite <- (pow1 n). apply pow_incr. lra.
Qed.

Lemma pow_antitone (x : R) (m n : nat) :
  0 <= x <= 1 -> (m <= n)%nat -> x ^ n <= x ^ m.
Proof.
  intros Hx Hmn. replace n with (m + (n - m))%nat by lia.
  rewrite pow_add.
  pose proof (@pow_unit_interval x m Hx) as [Hm0 _].
  pose proof (@pow_unit_interval x (n - m) Hx) as [_ Hk1].
  nra.
Qed.

(** The probability the loss works with, and the one of the true class. *)
Lemma focal_factors (self : FocalLoss.t) (one_hot : bool) (output : R) :
  0 <= FocalLoss._alpha self <= 1 ->
  0 < FocalLoss._eps self <= 1 ->
  (FocalLoss._from_logits self = true -> 0 <= output <= 1) ->
  exists a f l,
    (forall gamma,
       FocalLoss.elementwise (with_gamma self gamma) one_hot output
       = a * f ^ gamma * l)
    /\ 0 <= a <= 1 /\ 0 <= f <= 1 /\ 0 <= l <= - ln (FocalLoss._eps self).
Proof.
  intros Ha He Hout.
  set (p := if negb (FocalLoss._from_logits self) then sigmoid output else output).
  assert (Hp : 0 <= p <= 1).
  { unfold p. destruct (FocalLoss._from_logits self); cbn.
    - now apply Hout.
    - pose proof (sigmoid_range output). lra. }
  set (pt := if one_hot then p else 1 - p).
  assert (Hpt : 0 <= pt <= 1) by (unfold pt; destruct one_hot; lra).
  exists (if one_hot then FocalLoss._alpha self else 1 - FocalLoss._alpha self),
    (1 - pt), (- ln (Rmin (pt + FocalLoss._eps self) 1)).
  split; [|split; [|split]].
  - intros gamma. unfold FocalLoss.elementwise, with_gamma, where_. cbn.
    fold p. fold pt. destruct one_hot; ring.
  - destruct one_hot; lra.
  - lra.
  - assert (Hmin : FocalLoss._eps self <= Rmin (pt + FocalLoss._eps self) 1 <= 1).
    { split; [apply Rmin_glb; lra | apply Rmin_r]. }
    pose proof (@ln_le (FocalLoss._eps self)
                  (Rmin (pt + FocalLoss._eps self) 1) ltac:(lra) (proj1 Hmin)) as H1.
    pose proof (@ln_le (Rmin (pt + FocalLoss._eps self) 1) 1
                  ltac:(lra) (proj2 Hmin)) as H2.
    rewrite ln_1 in H2. lra.
Qed.

Lemma with_gamma_same (self : FocalLoss.t) :
  with_gamma self (FocalLoss._gamma self) = self.
Proof. now destruct self. Qed.

(** X18.  With [alpha] between 0 and 1 and [eps] in (0, 1] the focal
    loss at an element lies between 0 and [-ln eps], for every logit, and
    for every probability between 0 and 1 when the input is already a
    probability: the floor [eps] bounds the loss of the worst
    prediction. *)
Theorem focal_loss_bounds :
  forall (self : FocalLoss.t) (one_hot : bool) (output : R),
    0 <= FocalLoss._alpha self <= 1 ->
    0 < FocalLoss._eps self <= 1 ->
    (FocalLoss._from_logits self = true -> 0 <= output <= 1) ->
    0 <= FocalLoss.elementwise self one_hot output <= - ln (FocalLoss._eps self).
Proof.
  intros self one_hot output Ha He Hout.
  destruct (@focal_factors self one_hot output Ha He Hout)
    as [a [f [l [Hform [Ha' [Hf Hl]]]]]].
  assert (E : FocalLoss.elementwise self one_hot output
              = a * f ^ FocalLoss._gamma self * l)
    by (now rewrite <- Hform, with_gamma_same).
  rewrite E. clear E Hform.
  pose proof (@pow_unit_interval f (FocalLoss._gamma self) Hf) as Hfg.
  assert (H0 : 0 <= a * f ^ FocalLoss._gamma self <= 1) by nra.
  set (q := a * f ^ FocalLoss._gamma self) in *.
  split.
  - apply Rmult_le_pos; lra.
  - apply Rle_trans with (1 * l); [apply Rmult_le_compat_r; lra | lra].
Qed.

(** X19.  Raising [gamma] never raises the loss: under the same
    conditions the loss at an element with the larger exponent is at most
    the loss with the smaller one. *)
Theorem focal_loss_decreases_with_gamma :
  forall (self : FocalLoss.t) (gamma gamma' : nat) (one_hot : bool) (output : R),
    0 <= FocalLoss._alpha self <= 1 ->
    0 < FocalLoss._eps self <= 1 ->
    (FocalLoss._from_logits self = true -> 0 <= output <= 1) ->
    (gamma <= gamma')%nat ->
    FocalLoss.elementwise (with_gamma self gamma') one_hot output
    <= FocalLoss.elementwise (with_gamma self gamma) one_hot output.
Proof.
  intros self gamma gamma' one_hot output Ha He Hout Hg.
  destruct (@focal_factors self one_hot output Ha He Hout)
    as [a [f [l [Hform [Ha' [Hf Hl]]]]]].
  rewrite !Hform.
  pose proof (@pow_antitone f gamma gamma' Hf Hg) as Hpow.
  assert (Hal : 0 <= a * l) by (apply Rmult_le_pos; lra).
  replace (a * f ^ gamma' * l) with (a * l * f ^ gamma') by ring.
  replace (a * f ^ gamma * l) with (a * l * f ^ gamma) by ring.
  now apply Rmult_le_compat_l.
Qed.

(** X20.  A certain and right prediction costs nothing, whatever
    [alpha] and [gamma] are: on probabilities, score 1 at the true class
    and score 0 at another class give loss exactly 0, the clamp at 1
    cancelling the floor [eps]. *)
Theorem focal_loss_zero_when_certain :
  forall (self : FocalLoss.t) (one_hot : bool),
    FocalLoss._from_logits self = true ->
    0 <= FocalLoss._eps self ->
    FocalLoss.elementwise self one_hot (if one_hot then 1 else 0) = 0.
Proof.
  intros self one_hot Hfl He.
  unfold FocalLoss.elementwise, where_. rewrite Hfl. cbn [negb].
  replace (if one_hot then if one_hot then 1 else 0
           else 1 - (if one_hot then 1 else 0)) with 1
    by (destruct one_hot; ring).
  rewrite Rmin_right by lra. rewrite ln_1. ring.
Qed.

Lemma map2_map_r (T U V W : Type) (f : T -> U -> V) (g : W -> U) :
  forall (a : list T) (b : list W),
    map2 f a (map g b) = map2 (fun x y => f x (g y)) a b.
Proof.
  induction a as [|x a IH]; intros [|y b]; cbn; [reflexivity ..|].
  now rewrite IH.
Qed.

Lemma map2_ext (T U V : Type) (f g : T -> U -> V) :
  (forall x y, f x y = g x y) ->
  forall (a : list T) (b : list U), map2 f a b = map2 g a b.
Proof.
  intros Hfg. induction a as [|x a IH]; intros [|y b]; cbn; [reflexivity ..|].
  now rewrite Hfg, IH.
Qed.

Lemma positive_indicator (b : bool) : FocalLoss.positive (indicator b) = b.
Proof.
  unfold FocalLoss.positive, indicator.
  destruct b; destruct (Rlt_dec 0 _); try reflexivity; lra.
Qed.

(** X21.  Index labels and their one-hot rows give the same focal loss:
    the loss on sparse labels is the loss that the same object without
    [sparse_label] computes on the rows of 0 and 1 that [one_hot] makes of
    them. *)
Theorem focal_sparse_agrees_with_dense :
  forall (self : FocalLoss.t) (output : list (list (list R)))
         (label : list (list Z)),
    FocalLoss._sparse_label self = true ->
    FocalLoss.unweighted self output (Indices label)
    = FocalLoss.unweighted (with_sparse_label self false) output
        (PerClass
           (map (map (fun y =>
                        map indicator
                          (FocalLoss.one_hot y
                             (int_value (FocalLoss._num_class self)))))
              label)).
Proof.
  intros self output label Hsparse.
  unfold FocalLoss.unweighted. rewrite Hsparse.
  cbn [with_sparse_label FocalLoss._sparse_label]. f_equal.
  rewrite map2_map_r. apply map2_ext. intros sample labels. f_equal.
  rewrite map2_map_r. apply map2_ext. intros scores y.
  rewrite map_map.
  rewrite (map_ext (fun b => FocalLoss.positive (indicator b)) (fun b => b)
             positive_indicator), map_id.
  apply map2_ext. intros one_hot x. reflexivity.
Qed.

Lemma sum_one_hot_before (j : nat) :
  forall (l : list R) (start : nat),
    (j < start)%nat ->
    Loss.sum (map2 Rmult l
               (map indicator
                  (map (fun c => Z.eqb (Z.of_nat j) (Z.of_nat c))
                     (seq start (List.length l))))) = 0.
Proof.
  induction l as [|x l IH]; intros start Hlt; cbn; [reflexivity|].
  rewrite IH by lia.
  destruct (Z.eqb_spec (Z.of_nat j) (Z.of_nat start)) as [E|E]; [lia|].
  cbn. ring.
Qed.

Lemma sum_one_hot (j : nat) :
  forall (l : list R) (start : nat),
    (start <= j < start + List.length l)%nat ->
    Loss.sum (map2 Rmult l
               (map indicator
                  (map (fun c => Z.eqb (Z.of_nat j) (Z.of_nat c))
                     (seq start (List.length l)))))
    = nth (j - start) l 0.
Proof.
  induction l as [|x l IH]; intros start Hj; cbn [List.length] in *; [lia|].
  cbn [seq map map2 Loss.sum fold_right].
  destruct (Z.eqb_spec (Z.of_nat j) (Z.of_nat start)) as [E|E].
  - apply Nat2Z.inj in E. subst start.
    pose proof (@sum_one_hot_before j l (S j) ltac:(lia)) as H0.
    unfold Loss.sum in H0. rewrite H0, Nat.sub_diag. cbn. ring.
  - assert (Hj' : (S start <= j < S start + List.length l)%nat) by lia.
    specialize (IH (S start) Hj'). unfold Loss.sum in IH. rewrite IH.
    replace (j - start)%nat with (S (j - S start)) by lia. cbn. ring.
Qed.

(** X22.  At a position whose label is a class index within range and
    is not the ignore label, the softmax cross-entropy on the index is
    the softmax cross-entropy on its one-hot row, when [pick] selects the
    entry at the index and [log_softmax] keeps the number of classes. *)
Theorem softmax_sparse_agrees_with_dense :
  forall (log_softmax : list R -> list R) (pick : list R -> Z -> R)
         (self : SoftmaxCrossEntropyLoss.t) (scores : list R) (y : Z),
    (forall (l : list R) (k : Z),
        (0 <= k < Z.of_nat (List.length l))%Z ->
        pick l k = nth (Z.to_nat k) l 0) ->
    List.length (log_softmax scores) = List.length scores ->
    (0 <= y < Z.of_nat (List.length scores))%Z ->
    y <> SoftmaxCrossEntropyLoss._ignore_label self ->
    SoftmaxCrossEntropyLoss.sparse_position log_softmax pick self scores y
    = SoftmaxCrossEntropyLoss.dense_position log_softmax self scores
        (one_hot_row y (List.length scores)).
Proof.
  intros log_softmax pick self scores y Hpick Hlen Hy Hign.
  unfold SoftmaxCrossEntropyLoss.sparse_position,
    SoftmaxCrossEntropyLoss.dense_position, where_.
  destruct (Z.eqb_spec y (SoftmaxCrossEntropyLoss._ignore_label self));
    [contradiction|].
  set (pred := if negb (SoftmaxCrossEntropyLoss._from_logits self)
               then log_softmax scores else scores).
  assert (Hpl : List.length pred = List.length scores)
    by (unfold pred; now destruct (negb _)).
  rewrite Hpick by (rewrite Hpl; exact Hy). f_equal.
  unfold one_hot_row, FocalLoss.one_hot. rewrite Nat2Z.id, <- Hpl.
  remember (Z.to_nat y) as j eqn:Ej.
  assert (Hyj : y = Z.of_nat j) by lia. clear Ej. subst y.
  rewrite sum_one_hot by lia. now rewrite Nat.sub_0_r.
Qed.


Lemma bce_logits_positive_witness :
  0 < SigmoidBinaryCrossEntropyLoss.from_logits 2 (/ 2).
Proof. apply (@bce_logits_positive 2 (/ 2)). lra. Defined.

Lemma bce_probabilities_bounds_witness :
  - ln (1 + eps12) <= SigmoidBinaryCrossEntropyLoss.from_sigmoid (/ 2) 1
                   <= - ln eps12
  /\ SigmoidBinaryCrossEntropyLoss.from_sigmoid 1 1 = - ln (1 + eps12)
  /\ - ln (1 + eps12) < 0.
Proof. apply (@bce_probabilities_bounds (/ 2) 1); lra. Defined.

Lemma focal_loss_bounds_witness :
  0 <= FocalLoss.elementwise
         (FocalLoss.mk (-1) (/ 4) 2 true (PyInt 3) false (/ 2) None 0) true 3
    <= - ln (/ 2).
Proof.
  apply (@focal_loss_bounds
           (FocalLoss.mk (-1) (/ 4) 2 true (PyInt 3) false (/ 2) None 0) true 3).
  - cbn. lra.
  - cbn. lra.
  - cbn. discriminate.
Defined.

Lemma focal_loss_decreases_with_gamma_witness :
  FocalLoss.elementwise
    (with_gamma (FocalLoss.mk (-1) (/ 4) 2 true (PyInt 3) false (/ 2) None 0) 2)
    true 3
  <= FocalLoss.elementwise
       (with_gamma (FocalLoss.mk (-1) (/ 4) 2 true (PyInt 3) false (/ 2) None 0) 0)
       true 3.
Proof.
  apply (@focal_loss_decreases_with_gamma
           (FocalLoss.mk (-1) (/ 4) 2 true (PyInt 3) false (/ 2) None 0)
           0%nat 2%nat true 3).
  - cbn. lra.
  - cbn. lra.
  - cbn. discriminate.
  - lia.
Defined.

Lemma focal_loss_zero_when_certain_witness :
  FocalLoss.elementwise
    (FocalLoss.mk (-1) (/ 4) 2 true (PyInt 3) true (/ 2) None 0) true 1
  = 0.
Proof.
  apply (@focal_loss_zero_when_certain
           (FocalLoss.mk (-1) (/ 4) 2 true (PyInt 3) true (/ 2) None 0) true).
  - reflexivity.
  - cbn. lra.
Defined.

Lemma focal_sparse_agrees_with_dense_witness :
  FocalLoss.unweighted
    (FocalLoss.mk (-1) (/ 4) 2 true (PyInt 2) false (/ 2) None 0)
    [[[1; 2]]] (Indices [[1%Z]])
  = FocalLoss.unweighted
      (with_sparse_label
         (FocalLoss.mk (-1) (/ 4) 2 true (PyInt 2) false (/ 2) None 0) false)
      [[[1; 2]]]
      (PerClass
         (map (map (fun y =>
                      map indicator
                        (FocalLoss.one_hot y
                           (int_value
                              (FocalLoss._num_class
                                 (FocalLoss.mk (-1) (/ 4) 2 true (PyInt 2) false
                                    (/ 2) None 0))))))
            [[1%Z]])).
Proof.
  apply (@focal_sparse_agrees_with_dense
           (FocalLoss.mk (-1) (/ 4) 2 true (PyInt 2) false (/ 2) None 0)
           [[[1; 2]]] [[1%Z]]).
  reflexivity.
Defined.

Lemma softmax_sparse_agrees_with_dense_witness :
  SoftmaxCrossEntropyLoss.sparse_position (fun l => l)
    (fun l k => nth (Z.to_nat k) l 0) SoftmaxCrossEntropyLoss.default
    [1; 2; 3] 1%Z
  = SoftmaxCrossEntropyLoss.dense_position (fun l => l)
      SoftmaxCrossEntropyLoss.default [1; 2; 3]
      (one_hot_row 1%Z (List.length [1; 2; 3])).
Proof.
  apply (@softmax_sparse_agrees_with_dense (fun l => l)
           (fun l k => nth (Z.to_nat k) l 0) SoftmaxCrossEntropyLoss.default
           [1; 2; 3] 1%Z).
  - intros l k Hk. reflexivity.
  - reflexivity.
  - cbn. lia.
  - cbn. discriminate.
Defined.

End LossMore.
